(** * Print Layout Planner: packing optimiser and sheet tiling

    A shallow embedding of [helpers/packing.ts] (the shelf packer
    [packWithinWidth] and the column search [optimisePackingLayout]) and of
    the geometric core of [helpers/exportPdf.ts] (per-sheet intersection,
    texture crop, page emission), with the state updates of [App.tsx] and
    the drag handler of [SheetCanvas.tsx] that call them, followed by the
    properties proved about them.

    Numbers.  The TypeScript code computes with IEEE-754 doubles.  Here a
    [number] is an exact rational ([Q]): every comparison, [Math.max],
    [Math.min], [Math.ceil] and arithmetic operation is the mathematically
    exact one, and NaN and the infinities do not arise (the one infinity of
    the source, the initial [tightestRemaining], is modelled by [None]).
    Equality of numbers is [Qeq] ([==]).  Integer-valued quantities of the
    source (column and row counts, loop indices, pixel sizes) are [Z] or
    [nat].

    The rationals stand for the doubles as long as rounding stays inside
    the tolerance [EPSILON] of the code and the column counter stays an
    exact integer.  Whether the optimiser finds a layout at all depends on
    that; the properties that say so carry the range in which it holds
    ([roundingSafe]).  The module [Doubles] repeats the packer and the
    optimiser over binary64 numbers and evaluates them outside that
    range. *)

From Stdlib Require Import Floats QArith Qround Qabs Lqa Sorted.
From stdpp Require Import gmap strings list fin_maps.

Local Open Scope Q_scope.

(** A decimal literal of type [float] denotes the nearest double, as it does
    in JavaScript. *)
#[local] Set Warnings "-inexact-float".

(** ** JavaScript numeric primitives used by the code *)

Module JS.

Definition number := Q.

(** [a <= b] and [a < b] as the boolean tests of the source. *)
Definition leb (a b : Q) : bool := Qle_bool a b.
Definition ltb (a b : Q) : bool := negb (Qle_bool b a).
Definition eqb (a b : Q) : bool := Qeq_bool a b.

Definition Math_max (a b : Q) : Q := if leb a b then b else a.
Definition Math_min (a b : Q) : Q := if leb a b then a else b.
Definition Math_ceil (a : Q) : Z := Qceiling a.
Definition Math_abs (a : Q) : Q := Qabs a.
(** [Math.round]: the nearest integer, halves upwards. *)
Definition Math_round (a : Q) : Z := Qfloor (a + (1 # 2)).

(** [a || b] on numbers: [a] unless it is zero (falsy). *)
Definition or_else (a b : Q) : Q := if eqb a 0 then b else a.

End JS.

(** ** constants.ts *)

Definition MAX_SHEET_GRID : Z := 24.
Definition EPSILON : Q := 0.0001.

(** ** types.ts *)

Inductive TextureFormat := PNG | JPEG | WEBP.

Module PrintObject.
Record t := mk {
  id : string;
  label : string;
  widthMm : Q;
  heightMm : Q;
  xMm : Q;
  yMm : Q;
  color : string;
  textureSrc : option string;
  textureName : option string;
  textureFormat : option TextureFormat
}.
End PrintObject.

Module SheetDimensions.
Record t := mk { widthMm : Q; heightMm : Q }.
End SheetDimensions.

(** ** packing.ts: data *)

Module PackingPlacement.
Record t := mk { xMm : Q; yMm : Q }.
End PackingPlacement.

Module Shelf.
Record t := mk { yMm : Q; heightMm : Q; usedWidthMm : Q }.
End Shelf.

Module PackingResult.
Record t := mk {
  columns : Z;
  rows : Z;
  placements : gmap string PackingPlacement.t;
  layoutWidthMm : Q;
  layoutHeightMm : Q;
  wasteArea : Q
}.
End PackingResult.

(** The object literal returned by [packWithinWidth]. *)
Module Packing.
Record t := mk {
  placements : gmap string PackingPlacement.t;
  totalHeightMm : Q;
  usedWidthMm : Q
}.
End Packing.

(** ** packing.ts: [packWithinWidth] *)

(** The local variables of [packWithinWidth] that live across iterations of
    its outer loop. *)
Module PackState.
Record t := mk {
  shelves : list Shelf.t;
  placements : gmap string PackingPlacement.t;
  totalHeightMm : Q;
  maxUsedWidthMm : Q
}.
Definition init : t := mk [] ∅ 0 0.
End PackState.

(** [remaining < tightestRemaining], where [None] is
    [Number.POSITIVE_INFINITY]. *)
Definition below (remaining : Q) (tightestRemaining : option Q) : bool :=
  match tightestRemaining with
  | None => true
  | Some t => JS.ltb remaining t
  end.

(** The inner [for] loop over the shelves (lines 38-48): [rest] is the part
    of the shelf array still to visit, [index] the position of its head.
    The result is [bestShelfIndex], with [None] for [-1]. *)
Fixpoint scanShelves (maxWidthMm w : Q) (rest : list Shelf.t) (index : nat)
    (bestShelfIndex : option nat) (tightestRemaining : option Q) : option nat :=
  match rest with
  | [] => bestShelfIndex
  | shelf :: rest' =>
      let projectedWidth := Shelf.usedWidthMm shelf + w in
      if JS.leb projectedWidth (maxWidthMm + EPSILON) then
        let remaining := maxWidthMm - projectedWidth in
        if below remaining tightestRemaining
        then scanShelves maxWidthMm w rest' (S index) (Some index) (Some remaining)
        else scanShelves maxWidthMm w rest' (S index) bestShelfIndex tightestRemaining
      else scanShelves maxWidthMm w rest' (S index) bestShelfIndex tightestRemaining
  end.

Definition findBestShelf (maxWidthMm w : Q) (shelves : list Shelf.t) : option nat :=
  scanShelves maxWidthMm w shelves 0%nat None None.

(** [shelves[i].yMm += deltaHeight] for every [i] from [start] on
    (lines 72-74). *)
Definition shiftDown (deltaHeight : Q) (s : Shelf.t) : Shelf.t :=
  Shelf.mk (Shelf.yMm s + deltaHeight) (Shelf.heightMm s) (Shelf.usedWidthMm s).

Definition shiftFrom (start : nat) (deltaHeight : Q) (shelves : list Shelf.t)
    : list Shelf.t :=
  take start shelves ++ map (shiftDown deltaHeight) (drop start shelves).

(** Lines 51-60: no shelf fits, a new one is opened below the others. *)
Definition openShelf (st : PackState.t) (rect : PrintObject.t) : PackState.t :=
  let newShelf :=
    Shelf.mk (PackState.totalHeightMm st) (PrintObject.heightMm rect)
             (PrintObject.widthMm rect) in
  PackState.mk
    (PackState.shelves st ++ [newShelf])
    (<[PrintObject.id rect := PackingPlacement.mk 0 (Shelf.yMm newShelf)]>
       (PackState.placements st))
    (PackState.totalHeightMm st + PrintObject.heightMm rect)
    (JS.Math_max (PackState.maxUsedWidthMm st) (PrintObject.widthMm rect)).

(** Lines 63-76: the rectangle goes to the right end of shelf
    [bestShelfIndex].  The placement receives the numbers [shelf.usedWidthMm]
    and [shelf.yMm] as they are at that moment; the later updates of the shelf
    objects do not reach placements that were stored before. *)
Definition placeOnShelf (st : PackState.t) (rect : PrintObject.t)
    (bestShelfIndex : nat) (shelf : Shelf.t) : PackState.t :=
  let placementX := Shelf.usedWidthMm shelf in
  let placements' :=
    <[PrintObject.id rect := PackingPlacement.mk placementX (Shelf.yMm shelf)]>
      (PackState.placements st) in
  let usedWidthMm' := Shelf.usedWidthMm shelf + PrintObject.widthMm rect in
  let maxUsedWidthMm' := JS.Math_max (PackState.maxUsedWidthMm st) usedWidthMm' in
  if JS.ltb (Shelf.heightMm shelf) (PrintObject.heightMm rect) then
    let deltaHeight := PrintObject.heightMm rect - Shelf.heightMm shelf in
    let shelf' := Shelf.mk (Shelf.yMm shelf) (PrintObject.heightMm rect) usedWidthMm' in
    PackState.mk
      (shiftFrom (S bestShelfIndex) deltaHeight
         (<[bestShelfIndex := shelf']> (PackState.shelves st)))
      placements'
      (PackState.totalHeightMm st + deltaHeight)
      maxUsedWidthMm'
  else
    let shelf' := Shelf.mk (Shelf.yMm shelf) (Shelf.heightMm shelf) usedWidthMm' in
    PackState.mk
      (<[bestShelfIndex := shelf']> (PackState.shelves st))
      placements'
      (PackState.totalHeightMm st)
      maxUsedWidthMm'.

(** One iteration of the outer loop (lines 30-77); [None] is the
    [return null] of line 32.  The second [None] stands for reading
    [shelves[bestShelfIndex]] out of range, which does not happen
    ([scanShelves_lt] below). *)
Definition packRect (maxWidthMm : Q) (st : PackState.t) (rect : PrintObject.t)
    : option PackState.t :=
  if JS.ltb (maxWidthMm + EPSILON) (PrintObject.widthMm rect) then None
  else
    match findBestShelf maxWidthMm (PrintObject.widthMm rect) (PackState.shelves st) with
    | None => Some (openShelf st rect)
    | Some bestShelfIndex =>
        match PackState.shelves st !! bestShelfIndex with
        | Some shelf => Some (placeOnShelf st rect bestShelfIndex shelf)
        | None => None
        end
    end.

Fixpoint packLoop (maxWidthMm : Q) (st : PackState.t) (rectangles : list PrintObject.t)
    : option PackState.t :=
  match rectangles with
  | [] => Some st
  | rect :: rest =>
      match packRect maxWidthMm st rect with
      | None => None
      | Some st' => packLoop maxWidthMm st' rest
      end
  end.

(** Lines 79-89. *)
Definition finishPacking (maxWidthMm : Q) (st : PackState.t) : Packing.t :=
  let heightExtent :=
    match last (PackState.shelves st) with
    | None => 0
    | Some s => Shelf.yMm s + Shelf.heightMm s
    end in
  let layoutHeightMm := JS.Math_max (PackState.totalHeightMm st) heightExtent in
  Packing.mk (PackState.placements st) layoutHeightMm
    (JS.Math_min maxWidthMm (PackState.maxUsedWidthMm st)).

Definition packWithinWidth (rectangles : list PrintObject.t) (maxWidthMm : Q)
    : option Packing.t :=
  match packLoop maxWidthMm PackState.init rectangles with
  | None => None
  | Some st => Some (finishPacking maxWidthMm st)
  end.

(** The shelf a rectangle lands on in one iteration: the best fitting one,
    or the one about to be opened. *)
Definition chosenShelf (maxWidthMm : Q) (st : PackState.t) (rect : PrintObject.t) : nat :=
  match findBestShelf maxWidthMm (PrintObject.widthMm rect) (PackState.shelves st) with
  | Some bestShelfIndex => bestShelfIndex
  | None => length (PackState.shelves st)
  end.

(** The shelf index of each rectangle, in input order, read off the same run
    of the loop. *)
Fixpoint shelfTrace (maxWidthMm : Q) (st : PackState.t) (rectangles : list PrintObject.t)
    : list nat :=
  match rectangles with
  | [] => []
  | rect :: rest =>
      match packRect maxWidthMm st rect with
      | None => []
      | Some st' => chosenShelf maxWidthMm st rect :: shelfTrace maxWidthMm st' rest
      end
  end.

(** ** packing.ts: [optimisePackingLayout] *)

(** The comparator handed to [sort] (lines 97-104). *)
Definition compareObjects (a b : PrintObject.t) : Q :=
  let aKey := JS.Math_max (PrintObject.widthMm a) (PrintObject.heightMm a) in
  let bKey := JS.Math_max (PrintObject.widthMm b) (PrintObject.heightMm b) in
  if negb (JS.eqb bKey aKey) then bKey - aKey
  else JS.or_else (PrintObject.heightMm b - PrintObject.heightMm a)
                  (PrintObject.widthMm b - PrintObject.widthMm a).

(** [Array.prototype.sort] is a stable sort: an element moves behind another
    one only when the comparator returns a positive number for the pair.
    Insertion from the right computes that order. *)
Fixpoint insertSorted {A} (cmp : A -> A -> Q) (x : A) (l : list A) : list A :=
  match l with
  | [] => [x]
  | y :: l' => if JS.ltb 0 (cmp x y) then y :: insertSorted cmp x l' else x :: l
  end.

Definition sortBy {A} (cmp : A -> A -> Q) (l : list A) : list A :=
  foldr (insertSorted cmp) [] l.

(** [reduce] with an initial value is a left fold. *)
Definition totalAreaOf (sorted : list PrintObject.t) : Q :=
  fold_left (fun sum rect => sum + PrintObject.widthMm rect * PrintObject.heightMm rect)
            sorted 0.

Definition maxWidthOf (sorted : list PrintObject.t) : Q :=
  fold_left (fun max rect => JS.Math_max max (PrintObject.widthMm rect)) sorted 0.

(** The replacement test of lines 126-134, for a [best] that is not null. *)
Definition replaces (columns rows : Z) (wasteArea packedHeightMm : Q)
    (best : PackingResult.t) : bool :=
  JS.ltb wasteArea (PackingResult.wasteArea best - 0.5)
  || (JS.ltb (JS.Math_abs (wasteArea - PackingResult.wasteArea best)) 0.5
      && ((rows <? PackingResult.rows best)%Z
          || ((rows =? PackingResult.rows best)%Z
              && ((columns <? PackingResult.columns best)%Z
                  || ((columns =? PackingResult.columns best)%Z
                      && JS.ltb packedHeightMm (PackingResult.layoutHeightMm best)))))).

(** The candidate built from a feasible packing (lines 121-124 and
    135-142). *)
Definition candidateOf (sheetWidthMm sheetHeightMm totalArea : Q) (columns : Z)
    (packing : Packing.t) : PackingResult.t :=
  let maxLayoutWidth := inject_Z columns * sheetWidthMm in
  let rows := Z.max 1 (JS.Math_ceil (Packing.totalHeightMm packing / sheetHeightMm)) in
  let layoutWidth :=
    JS.Math_min maxLayoutWidth (JS.Math_max sheetWidthMm (Packing.usedWidthMm packing)) in
  let layoutHeight :=
    JS.Math_max (Packing.totalHeightMm packing) (inject_Z rows * sheetHeightMm) in
  let wasteArea :=
    inject_Z columns * inject_Z rows * sheetWidthMm * sheetHeightMm - totalArea in
  PackingResult.mk columns rows (Packing.placements packing)
                   layoutWidth layoutHeight wasteArea.

(** The body of the column loop (lines 115-143). *)
Definition tryColumns (sorted : list PrintObject.t) (sheetWidthMm sheetHeightMm totalArea : Q)
    (best : option PackingResult.t) (columns : Z) : option PackingResult.t :=
  match packWithinWidth sorted (inject_Z columns * sheetWidthMm) with
  | None => best
  | Some packing =>
      let candidate := candidateOf sheetWidthMm sheetHeightMm totalArea columns packing in
      match best with
      | None => Some candidate
      | Some b =>
          if replaces columns (PackingResult.rows candidate)
                      (PackingResult.wasteArea candidate)
                      (Packing.totalHeightMm packing) b
          then Some candidate else best
      end
  end.

(** Line 109, with the exact quotient.  The double quotient of the source
    is the nearest double to it, so the two column counts agree except
    where the exact quotient lies within one rounding of an integer. *)
Definition minimumColumnsOf (sorted : list PrintObject.t) (sheetWidthMm : Q) : Z :=
  Z.max 1 (JS.Math_ceil (maxWidthOf sorted / sheetWidthMm)).

Definition maximumColumnsOf (minimumColumns : Z) : Z :=
  Z.max minimumColumns MAX_SHEET_GRID.

(** [sheetWidthMm] and [sheetHeightMm] are divisors; the model agrees with
    the source for non-zero sheet dimensions.  The column counter is an
    integer of any size and [columns * sheetWidthMm] the exact product; the
    counter of the source is a double, exact below 2^53
    ([Doubles.columnLoop] has the counter of the source). *)
Definition optimisePackingLayout (objects : list PrintObject.t)
    (sheetWidthMm sheetHeightMm : Q) : option PackingResult.t :=
  match objects with
  | [] => None
  | _ =>
      let sorted := sortBy compareObjects objects in
      let totalArea := totalAreaOf sorted in
      let minimumColumns := minimumColumnsOf sorted sheetWidthMm in
      let maximumColumns := maximumColumnsOf minimumColumns in
      fold_left (tryColumns sorted sheetWidthMm sheetHeightMm totalArea)
                (seqZ minimumColumns (maximumColumns - minimumColumns + 1))
                None
  end.

(** ** packing.ts in double precision

    The same two functions over IEEE-754 binary64, the numbers the code
    runs on: [float] is Rocq's primitive binary64 type, its operations round
    to nearest-even as those of JavaScript do, and a decimal literal denotes
    the nearest double.  The definitions follow the source line by line, as
    the ones above do, and evaluate on concrete inputs; they show where the
    rationals and the doubles part ways. *)

Module Doubles.

Local Open Scope float_scope.

Definition number := float.

(** [Math.max] and [Math.min]: NaN when an argument is NaN, and [+0] above
    [-0]. *)
Definition Math_max (a b : float) : float :=
  if is_nan a || is_nan b then nan
  else if a <? b then b
  else if b <? a then a
  else if a =? 0 then a + b
  else a.

Definition Math_min (a b : float) : float :=
  if is_nan a || is_nan b then nan
  else if a <? b then a
  else if b <? a then b
  else if a =? 0 then - (- a + - b)
  else a.

(** [Math.ceil].  A double of magnitude 2^52 or more is an integer; below,
    adding and subtracting 2^52 rounds to a nearest integer, which is then
    moved to the right side of the argument. *)
Definition two52 : float := 4503599627370496.

Definition Math_ceil (a : float) : float :=
  if is_nan a || (a =? 0) then a
  else if abs a <? two52 then
    if a <? 0 then
      let nearest := (- a + two52) - two52 in
      - (if - a <? nearest then nearest - 1 else nearest)
    else
      let nearest := (a + two52) - two52 in
      if nearest <? a then nearest + 1 else nearest
  else a.

Definition Math_abs (a : float) : float := abs a.

(** [a || b] on numbers: [a] unless it is falsy (zero or NaN). *)
Definition or_else (a b : float) : float :=
  if (a =? 0) || is_nan a then b else a.

Definition MAX_SHEET_GRID : float := 24.
Definition EPSILON : float := 0.0001.

Module PrintObject.
Record t := mk {
  id : string;
  label : string;
  widthMm : float;
  heightMm : float;
  xMm : float;
  yMm : float;
  color : string;
  textureSrc : option string;
  textureName : option string;
  textureFormat : option TextureFormat
}.
End PrintObject.

Module PackingPlacement.
Record t := mk { xMm : float; yMm : float }.
End PackingPlacement.

Module Shelf.
Record t := mk { yMm : float; heightMm : float; usedWidthMm : float }.
End Shelf.

Module PackingResult.
Record t := mk {
  columns : float;
  rows : float;
  placements : gmap string PackingPlacement.t;
  layoutWidthMm : float;
  layoutHeightMm : float;
  wasteArea : float
}.
End PackingResult.

Module Packing.
Record t := mk {
  placements : gmap string PackingPlacement.t;
  totalHeightMm : float;
  usedWidthMm : float
}.
End Packing.

Module PackState.
Record t := mk {
  shelves : list Shelf.t;
  placements : gmap string PackingPlacement.t;
  totalHeightMm : float;
  maxUsedWidthMm : float
}.
Definition init : t := mk [] ∅ 0 0.
End PackState.

(** Lines 38-48, with [tightestRemaining] starting at
    [Number.POSITIVE_INFINITY]. *)
Fixpoint scanShelves (maxWidthMm w : float) (rest : list Shelf.t) (index : nat)
    (bestShelfIndex : option nat) (tightestRemaining : float) : option nat :=
  match rest with
  | [] => bestShelfIndex
  | shelf :: rest' =>
      let projectedWidth := Shelf.usedWidthMm shelf + w in
      if projectedWidth <=? maxWidthMm + EPSILON then
        let remaining := maxWidthMm - projectedWidth in
        if remaining <? tightestRemaining
        then scanShelves maxWidthMm w rest' (S index) (Some index) remaining
        else scanShelves maxWidthMm w rest' (S index) bestShelfIndex tightestRemaining
      else scanShelves maxWidthMm w rest' (S index) bestShelfIndex tightestRemaining
  end.

Definition findBestShelf (maxWidthMm w : float) (shelves : list Shelf.t) : option nat :=
  scanShelves maxWidthMm w shelves 0%nat None infinity.

Definition shiftDown (deltaHeight : float) (s : Shelf.t) : Shelf.t :=
  Shelf.mk (Shelf.yMm s + deltaHeight) (Shelf.heightMm s) (Shelf.usedWidthMm s).

Definition shiftFrom (start : nat) (deltaHeight : float) (shelves : list Shelf.t)
    : list Shelf.t :=
  take start shelves ++ map (shiftDown deltaHeight) (drop start shelves).

(** Lines 51-60. *)
Definition openShelf (st : PackState.t) (rect : PrintObject.t) : PackState.t :=
  let newShelf :=
    Shelf.mk (PackState.totalHeightMm st) (PrintObject.heightMm rect)
             (PrintObject.widthMm rect) in
  PackState.mk
    (PackState.shelves st ++ [newShelf])
    (<[PrintObject.id rect := PackingPlacement.mk 0 (Shelf.yMm newShelf)]>
       (PackState.placements st))
    (PackState.totalHeightMm st + PrintObject.heightMm rect)
    (Math_max (PackState.maxUsedWidthMm st) (PrintObject.widthMm rect)).

(** Lines 63-76. *)
Definition placeOnShelf (st : PackState.t) (rect : PrintObject.t)
    (bestShelfIndex : nat) (shelf : Shelf.t) : PackState.t :=
  let placementX := Shelf.usedWidthMm shelf in
  let placements' :=
    <[PrintObject.id rect := PackingPlacement.mk placementX (Shelf.yMm shelf)]>
      (PackState.placements st) in
  let usedWidthMm' := Shelf.usedWidthMm shelf + PrintObject.widthMm rect in
  let maxUsedWidthMm' := Math_max (PackState.maxUsedWidthMm st) usedWidthMm' in
  if Shelf.heightMm shelf <? PrintObject.heightMm rect then
    let deltaHeight := PrintObject.heightMm rect - Shelf.heightMm shelf in
    let shelf' := Shelf.mk (Shelf.yMm shelf) (PrintObject.heightMm rect) usedWidthMm' in
    PackState.mk
      (shiftFrom (S bestShelfIndex) deltaHeight
         (<[bestShelfIndex := shelf']> (PackState.shelves st)))
      placements'
      (PackState.totalHeightMm st + deltaHeight)
      maxUsedWidthMm'
  else
    let shelf' := Shelf.mk (Shelf.yMm shelf) (Shelf.heightMm shelf) usedWidthMm' in
    PackState.mk
      (<[bestShelfIndex := shelf']> (PackState.shelves st))
      placements'
      (PackState.totalHeightMm st)
      maxUsedWidthMm'.

(** One iteration of the outer loop; [None] is the [return null] of
    line 32. *)
Definition packRect (maxWidthMm : float) (st : PackState.t) (rect : PrintObject.t)
    : option PackState.t :=
  if maxWidthMm + EPSILON <? PrintObject.widthMm rect then None
  else
    match findBestShelf maxWidthMm (PrintObject.widthMm rect) (PackState.shelves st) with
    | None => Some (openShelf st rect)
    | Some bestShelfIndex =>
        match PackState.shelves st !! bestShelfIndex with
        | Some shelf => Some (placeOnShelf st rect bestShelfIndex shelf)
        | None => None
        end
    end.

Fixpoint packLoop (maxWidthMm : float) (st : PackState.t) (rectangles : list PrintObject.t)
    : option PackState.t :=
  match rectangles with
  | [] => Some st
  | rect :: rest =>
      match packRect maxWidthMm st rect with
      | None => None
      | Some st' => packLoop maxWidthMm st' rest
      end
  end.

(** Lines 79-89. *)
Definition finishPacking (maxWidthMm : float) (st : PackState.t) : Packing.t :=
  let heightExtent :=
    match last (PackState.shelves st) with
    | None => 0
    | Some s => Shelf.yMm s + Shelf.heightMm s
    end in
  let layoutHeightMm := Math_max (PackState.totalHeightMm st) heightExtent in
  Packing.mk (PackState.placements st) layoutHeightMm
    (Math_min maxWidthMm (PackState.maxUsedWidthMm st)).

Definition packWithinWidth (rectangles : list PrintObject.t) (maxWidthMm : float)
    : option Packing.t :=
  match packLoop maxWidthMm PackState.init rectangles with
  | None => None
  | Some st => Some (finishPacking maxWidthMm st)
  end.

(** Lines 97-104. *)
Definition compareObjects (a b : PrintObject.t) : float :=
  let aKey := Math_max (PrintObject.widthMm a) (PrintObject.heightMm a) in
  let bKey := Math_max (PrintObject.widthMm b) (PrintObject.heightMm b) in
  if negb (bKey =? aKey) then bKey - aKey
  else or_else (PrintObject.heightMm b - PrintObject.heightMm a)
               (PrintObject.widthMm b - PrintObject.widthMm a).

Fixpoint insertSorted {A} (cmp : A -> A -> float) (x : A) (l : list A) : list A :=
  match l with
  | [] => [x]
  | y :: l' => if 0 <? cmp x y then y :: insertSorted cmp x l' else x :: l
  end.

Definition sortBy {A} (cmp : A -> A -> float) (l : list A) : list A :=
  foldr (insertSorted cmp) [] l.

Definition totalAreaOf (sorted : list PrintObject.t) : float :=
  fold_left (fun sum rect => sum + PrintObject.widthMm rect * PrintObject.heightMm rect)
            sorted 0.

Definition maxWidthOf (sorted : list PrintObject.t) : float :=
  fold_left (fun max rect => Math_max max (PrintObject.widthMm rect)) sorted 0.

(** Lines 126-134, for a [best] that is not null. *)
Definition replaces (columns rows wasteArea packedHeightMm : float)
    (best : PackingResult.t) : bool :=
  (wasteArea <? PackingResult.wasteArea best - 0.5)
  || ((Math_abs (wasteArea - PackingResult.wasteArea best) <? 0.5)
      && ((rows <? PackingResult.rows best)
          || ((rows =? PackingResult.rows best)
              && ((columns <? PackingResult.columns best)
                  || ((columns =? PackingResult.columns best)
                      && (packedHeightMm <? PackingResult.layoutHeightMm best)))))).

(** Lines 121-124 and 135-142. *)
Definition candidateOf (sheetWidthMm sheetHeightMm totalArea columns : float)
    (packing : Packing.t) : PackingResult.t :=
  let maxLayoutWidth := columns * sheetWidthMm in
  let rows := Math_max 1 (Math_ceil (Packing.totalHeightMm packing / sheetHeightMm)) in
  let layoutWidth :=
    Math_min maxLayoutWidth (Math_max sheetWidthMm (Packing.usedWidthMm packing)) in
  let layoutHeight :=
    Math_max (Packing.totalHeightMm packing) (rows * sheetHeightMm) in
  let wasteArea := columns * rows * sheetWidthMm * sheetHeightMm - totalArea in
  PackingResult.mk columns rows (Packing.placements packing)
                   layoutWidth layoutHeight wasteArea.

(** The body of the column loop (lines 115-143). *)
Definition tryColumns (sorted : list PrintObject.t)
    (sheetWidthMm sheetHeightMm totalArea : float)
    (best : option PackingResult.t) (columns : float) : option PackingResult.t :=
  match packWithinWidth sorted (columns * sheetWidthMm) with
  | None => best
  | Some packing =>
      let candidate := candidateOf sheetWidthMm sheetHeightMm totalArea columns packing in
      match best with
      | None => Some candidate
      | Some b =>
          if replaces columns (PackingResult.rows candidate)
                      (PackingResult.wasteArea candidate)
                      (Packing.totalHeightMm packing) b
          then Some candidate else best
      end
  end.

(** The [for] loop of line 114 with its double counter: the test
    [columns <= maximumColumns], the body, then [columns += 1].  [fuel]
    bounds the number of tests; the outer [None] says that the loop was
    still running when the fuel ran out. *)
Fixpoint columnLoop (fuel : nat) (sorted : list PrintObject.t)
    (sheetWidthMm sheetHeightMm totalArea maximumColumns columns : float)
    (best : option PackingResult.t) : option (option PackingResult.t) :=
  match fuel with
  | O => None
  | S fuel' =>
      if columns <=? maximumColumns then
        columnLoop fuel' sorted sheetWidthMm sheetHeightMm totalArea maximumColumns
                   (columns + 1)
                   (tryColumns sorted sheetWidthMm sheetHeightMm totalArea best columns)
      else Some best
  end.

(** [Some None] is the source's [return null], [Some (Some r)] a result. *)
Definition optimisePackingLayout (fuel : nat) (objects : list PrintObject.t)
    (sheetWidthMm sheetHeightMm : float) : option (option PackingResult.t) :=
  match objects with
  | [] => Some None
  | _ =>
      let sorted := sortBy compareObjects objects in
      let totalArea := totalAreaOf sorted in
      let maxWidthRequirement := maxWidthOf sorted in
      let minimumColumns := Math_max 1 (Math_ceil (maxWidthRequirement / sheetWidthMm)) in
      let maximumColumns := Math_max minimumColumns MAX_SHEET_GRID in
      columnLoop fuel sorted sheetWidthMm sheetHeightMm totalArea maximumColumns
                 minimumColumns None
  end.

Definition rectangle (id : string) (w h : float) : PrintObject.t :=
  PrintObject.mk id id w h 0 0 "#000000" None None None.

End Doubles.

(** ** exportPdf.ts: the geometry of [exportLayoutToPdf]

    The browser and jsPDF are outside the model.  What is kept of them: which
    image every texture source decodes to ([loadImage], [None] when decoding
    fails), whether a 2D canvas context is available, and the document as the
    list of its pages, each page being the drawing commands issued on it.  A
    fill keeps the colour string of the object ([hexToRgb] is not modelled). *)

Module Texture.
Record t := mk { image : string; widthPx : Z; heightPx : Z }.
End Texture.

(** The intersection of an object with one sheet cell, in layout
    coordinates (lines 81-88). *)
Module Intersection.
Record t := mk { interLeft : Q; interTop : Q; interRight : Q; interBottom : Q }.
Definition interWidth (i : t) : Q := interRight i - interLeft i.
Definition interHeight (i : t) : Q := interBottom i - interTop i.
End Intersection.

Definition intersect (object : PrintObject.t) (sheet : SheetDimensions.t)
    (originX originY : Q) : Intersection.t :=
  let objectRight := PrintObject.xMm object + PrintObject.widthMm object in
  let objectBottom := PrintObject.yMm object + PrintObject.heightMm object in
  Intersection.mk
    (JS.Math_max (PrintObject.xMm object) originX)
    (JS.Math_max (PrintObject.yMm object) originY)
    (JS.Math_min objectRight (originX + SheetDimensions.widthMm sheet))
    (JS.Math_min objectBottom (originY + SheetDimensions.heightMm sheet)).

(** The guard of line 90. *)
Definition skipped (i : Intersection.t) : bool :=
  JS.leb (Intersection.interWidth i) EPSILON || JS.leb (Intersection.interHeight i) EPSILON.

(** The source rectangle of [drawImage] (lines 100-105).  The object's
    dimensions are divisors; the crop is only computed for an intersection
    that passed the guard of line 90, and then both are positive
    ([not_skipped_positive] below). *)
Module Crop.
Record t := mk { sx : Q; sy : Q; sWidth : Q; sHeight : Q }.
End Crop.

Definition textureCrop (object : PrintObject.t) (widthPx heightPx : Z)
    (i : Intersection.t) : Crop.t :=
  let scaleX := inject_Z widthPx / PrintObject.widthMm object in
  let scaleY := inject_Z heightPx / PrintObject.heightMm object in
  let sxFloat :=
    JS.Math_max 0 ((Intersection.interLeft i - PrintObject.xMm object) * scaleX) in
  let syFloat :=
    JS.Math_max 0 ((Intersection.interTop i - PrintObject.yMm object) * scaleY) in
  let sWidthFloat :=
    JS.Math_max 1 (JS.Math_min (inject_Z widthPx - sxFloat)
                               (Intersection.interWidth i * scaleX)) in
  let sHeightFloat :=
    JS.Math_max 1 (JS.Math_min (inject_Z heightPx - syFloat)
                               (Intersection.interHeight i * scaleY)) in
  Crop.mk sxFloat syFloat sWidthFloat sHeightFloat.

(** What a closure pushed on [drawCommands] will draw: the destination
    rectangle is relative to the origin of the cell. *)
Inductive DrawCommand :=
  | ImageCrop (image : string) (crop : Crop.t) (canvasWidth canvasHeight : Z)
              (relativeX relativeY interWidth interHeight : Q)
  | Fill (color : string) (relativeX relativeY interWidth interHeight : Q).

(** The callback of [objects.forEach] (lines 80-136); [None] is the early
    [return] of line 91. *)
Definition objectCommand (textures : gmap string Texture.t) (sheet : SheetDimensions.t)
    (originX originY : Q) (object : PrintObject.t) : option DrawCommand :=
  let i := intersect object sheet originX originY in
  if skipped i then None
  else
    let relativeX := Intersection.interLeft i - originX in
    let relativeY := Intersection.interTop i - originY in
    match textures !! PrintObject.id object with
    | Some texture =>
        let crop := textureCrop object (Texture.widthPx texture) (Texture.heightPx texture) i in
        let canvasWidth := Z.max 1 (JS.Math_round (Crop.sWidth crop)) in
        let canvasHeight := Z.max 1 (JS.Math_round (Crop.sHeight crop)) in
        Some (ImageCrop (Texture.image texture) crop canvasWidth canvasHeight
                        relativeX relativeY
                        (Intersection.interWidth i) (Intersection.interHeight i))
    | None =>
        Some (Fill (PrintObject.color object) relativeX relativeY
                   (Intersection.interWidth i) (Intersection.interHeight i))
    end.

(** [drawCommands] of the cell at [(rowIndex, columnIndex)]. *)
Definition cellCommands (textures : gmap string Texture.t) (objects : list PrintObject.t)
    (sheet : SheetDimensions.t) (rowIndex columnIndex : Z) : list DrawCommand :=
  let originX := inject_Z columnIndex * SheetDimensions.widthMm sheet in
  let originY := inject_Z rowIndex * SheetDimensions.heightMm sheet in
  omap (objectCommand textures sheet originX originY) objects.

(** The jsPDF document: the finished pages and the page being drawn on.  A
    new document has one page. *)
Module Doc.
Record t := mk { before : list (list DrawCommand); current : list DrawCommand }.
Definition new : t := mk [] [].
Definition addPage (d : t) : t := mk (before d ++ [current d]) [].
Definition draw (d : t) (c : DrawCommand) : t := mk (before d) (current d ++ [c]).
Definition pages (d : t) : list (list DrawCommand) := before d ++ [current d].
End Doc.

(** Lines 138-147, on the pair [(hasAnyPage, doc)]. *)
Definition emitCell (st : bool * Doc.t) (drawCommands : list DrawCommand) : bool * Doc.t :=
  match drawCommands with
  | [] => st
  | _ :: _ =>
      let doc := if fst st then Doc.addPage (snd st) else snd st in
      (true, fold_left Doc.draw drawCommands doc)
  end.

(** The two nested loops over the grid (lines 74-149), rows outside. *)
Definition tileLoop (textures : gmap string Texture.t) (objects : list PrintObject.t)
    (sheet : SheetDimensions.t) (columns rows : Z) : bool * Doc.t :=
  fold_left
    (fun st rowIndex =>
       fold_left
         (fun st columnIndex =>
            emitCell st (cellCommands textures objects sheet rowIndex columnIndex))
         (seqZ 0 columns) st)
    (seqZ 0 rows) (false, Doc.new).

(** The pages the tiling hands on: none when [hasAnyPage] stayed false. *)
Definition tile (textures : gmap string Texture.t) (objects : list PrintObject.t)
    (sheet : SheetDimensions.t) (columns rows : Z) : list (list DrawCommand) :=
  let st := tileLoop textures objects sheet columns rows in
  if fst st then Doc.pages (snd st) else [].

(** Lines 35-55: the textures of the objects that have a source, by id. *)
Fixpoint loadTextures (loadImage : string -> option (Z * Z)) (objects : list PrintObject.t)
    (textures : gmap string Texture.t) : option (gmap string Texture.t) :=
  match objects with
  | [] => Some textures
  | object :: rest =>
      match PrintObject.textureSrc object with
      | Some src =>
          if String.eqb src "" then loadTextures loadImage rest textures
          else
            match loadImage src with
            | None => None
            | Some (w, h) =>
                loadTextures loadImage rest
                  (<[PrintObject.id object := Texture.mk src w h]> textures)
            end
      | None => loadTextures loadImage rest textures
      end
  end.

Inductive ExportOutcome :=
  | AlertNoObjects
  | AlertTextureError
  | AlertNoCanvas
  | AlertNothingToExport
  | Saved (pages : list (list DrawCommand)).

Definition exportLayoutToPdf (loadImage : string -> option (Z * Z)) (scratchContext : bool)
    (objects : list PrintObject.t) (sheet : SheetDimensions.t) (columns rows : Z)
    : ExportOutcome :=
  match objects with
  | [] => AlertNoObjects
  | _ :: _ =>
      match loadTextures loadImage objects ∅ with
      | None => AlertTextureError
      | Some textures =>
          if negb scratchContext then AlertNoCanvas
          else
            match tile textures objects sheet columns rows with
            | [] => AlertNothingToExport
            | pages => Saved pages
            end
      end
  end.

(** ** App.tsx: the state updates around the optimiser and the export

    The React state setters are called with functions of the current state;
    each is modelled by that function.  [window.alert] and [setFormError] are
    kept as the outcome of a handler. *)


(** [{ ...object, xMm, yMm }]. *)
Definition withPosition (object : PrintObject.t) (xMm yMm : Q) : PrintObject.t :=
  PrintObject.mk (PrintObject.id object) (PrintObject.label object)
    (PrintObject.widthMm object) (PrintObject.heightMm object) xMm yMm
    (PrintObject.color object) (PrintObject.textureSrc object)
    (PrintObject.textureName object) (PrintObject.textureFormat object).

(** The callback of [current.map] in the effect of lines 54-73: the object
    it returns and whether it set [hasChanges]. *)
Definition clampObject (layout : SheetDimensions.t) (object : PrintObject.t)
    : PrintObject.t * bool :=
  let maxX :=
    JS.Math_max (SheetDimensions.widthMm layout - PrintObject.widthMm object) 0 in
  let maxY :=
    JS.Math_max (SheetDimensions.heightMm layout - PrintObject.heightMm object) 0 in
  let minX :=
    JS.Math_min 0 (SheetDimensions.widthMm layout - PrintObject.widthMm object) in
  let minY :=
    JS.Math_min 0 (SheetDimensions.heightMm layout - PrintObject.heightMm object) in
  let nextX := JS.Math_min (JS.Math_max (PrintObject.xMm object) minX) maxX in
  let nextY := JS.Math_min (JS.Math_max (PrintObject.yMm object) minY) maxY in
  if negb (JS.eqb nextX (PrintObject.xMm object))
     || negb (JS.eqb nextY (PrintObject.yMm object))
  then (withPosition object nextX nextY, true)
  else (object, false).

(** The state update of that effect: [hasChanges ? adjusted : current]. *)
Definition clampObjects (layout : SheetDimensions.t) (current : list PrintObject.t)
    : list PrintObject.t :=
  let results := map (clampObject layout) current in
  if existsb snd results then map fst results else current.

(** [updateObjectPosition] (lines 154-158). *)
Definition updateObjectPosition (id : string) (xMm yMm : Q) (current : list PrintObject.t)
    : list PrintObject.t :=
  map (fun object =>
         if String.eqb (PrintObject.id object) id then withPosition object xMm yMm
         else object)
      current.

(** [clearTexture] (lines 201-209). *)
Definition clearTexture (id : string) (current : list PrintObject.t) : list PrintObject.t :=
  map (fun object =>
         if String.eqb (PrintObject.id object) id
         then PrintObject.mk (PrintObject.id object) (PrintObject.label object)
                (PrintObject.widthMm object) (PrintObject.heightMm object)
                (PrintObject.xMm object) (PrintObject.yMm object)
                (PrintObject.color object) None None None
         else object)
      current.




(** ** SheetCanvas.tsx: dragging *)

Module DragState.
Record t := mk {
  id : string;
  offsetXMm : Q;
  offsetYMm : Q;
  widthMm : Q;
  heightMm : Q
}.
End DragState.

(** [handlePointerMove] (lines 83-101).  [sheetRect] is the left and top of
    the sheet element, [None] when [sheetRef.current] is null; the result is
    the call of [onUpdateObjectPosition], [None] for the early return.
    [scale] is a divisor; the component only ever sets it to a positive
    number. *)
Definition handlePointerMove (dragState : option DragState.t) (sheetRect : option (Q * Q))
    (scale totalWidthMm totalHeightMm clientX clientY : Q) : option (string * Q * Q) :=
  match dragState, sheetRect with
  | Some drag, Some (rectLeft, rectTop) =>
      let relativeX := (clientX - rectLeft) / scale in
      let relativeY := (clientY - rectTop) / scale in
      let maxX := JS.Math_max (totalWidthMm - DragState.widthMm drag) 0 in
      let maxY := JS.Math_max (totalHeightMm - DragState.heightMm drag) 0 in
      let minX := JS.Math_min 0 (totalWidthMm - DragState.widthMm drag) in
      let minY := JS.Math_min 0 (totalHeightMm - DragState.heightMm drag) in
      let clampedX :=
        JS.Math_min (JS.Math_max (relativeX - DragState.offsetXMm drag) minX) maxX in
      let clampedY :=
        JS.Math_min (JS.Math_max (relativeY - DragState.offsetYMm drag) minY) maxY in
      Some (DragState.id drag, clampedX, clampedY)
  | _, _ => None
  end.

(** * Vocabulary of the properties *)

(** ** Shelves, sums and invariants of the packer *)

(** Shelf [b] is shelf [a] moved down by [d]. *)
Definition shifted (d : Q) (a b : Shelf.t) : Prop :=
  Shelf.usedWidthMm b = Shelf.usedWidthMm a /\
  Shelf.heightMm b = Shelf.heightMm a /\
  Shelf.yMm b == Shelf.yMm a + d.

Definition sumQ {A} (f : A -> Q) (l : list A) : Q :=
  foldr (fun x acc => f x + acc) 0 l.

Definition areaOf (rect : PrintObject.t) : Q :=
  PrintObject.widthMm rect * PrintObject.heightMm rect.

Definition shelfArea (s : Shelf.t) : Q := Shelf.usedWidthMm s * Shelf.heightMm s.

(** The two ways an iteration succeeds. *)
Inductive packed (maxWidthMm : Q) (st : PackState.t) (rect : PrintObject.t)
    : PackState.t -> Prop :=
  | packed_open :
      findBestShelf maxWidthMm (PrintObject.widthMm rect) (PackState.shelves st) = None ->
      packed maxWidthMm st rect (openShelf st rect)
  | packed_place (i : nat) (shelf : Shelf.t) :
      findBestShelf maxWidthMm (PrintObject.widthMm rect) (PackState.shelves st) = Some i ->
      PackState.shelves st !! i = Some shelf ->
      Shelf.usedWidthMm shelf + PrintObject.widthMm rect <= maxWidthMm + EPSILON ->
      packed maxWidthMm st rect (placeOnShelf st rect i shelf).

(** Every shelf is filled from 0 up to at most the bound plus the
    tolerance. *)
Definition usedOk (maxWidthMm : Q) (st : PackState.t) : Prop :=
  Forall (fun s => 0 <= Shelf.usedWidthMm s /\ Shelf.usedWidthMm s <= maxWidthMm + EPSILON)
         (PackState.shelves st).

(** The shelf heights add up to the running total, and the shelves have
    room, by area, for [area]. *)
Record areaOk (st : PackState.t) (area : Q) : Prop := {
  ok_heights : Forall (fun s => 0 <= Shelf.heightMm s) (PackState.shelves st);
  ok_total : sumQ Shelf.heightMm (PackState.shelves st) == PackState.totalHeightMm st;
  ok_area : area <= sumQ shelfArea (PackState.shelves st)
}.

(** Rectangle [k] of [done] is on shelf [trace !! k], inside the used part
    of that shelf, and to the right of the rectangles that went to the same
    shelf before it. *)
Record placedOk (st : PackState.t) (done : list PrintObject.t) (trace : list nat)
    : Prop := {
  pl_len : length trace = length done;
  pl_on : forall k r s,
    done !! k = Some r -> trace !! k = Some s ->
    exists p sh,
      PackState.placements st !! PrintObject.id r = Some p /\
      PackState.shelves st !! s = Some sh /\
      0 <= PackingPlacement.xMm p /\
      PackingPlacement.xMm p + PrintObject.widthMm r <= Shelf.usedWidthMm sh;
  pl_apart : forall k1 k2 r1 r2 s p1 p2,
    (k1 < k2)%nat ->
    done !! k1 = Some r1 -> done !! k2 = Some r2 ->
    trace !! k1 = Some s -> trace !! k2 = Some s ->
    PackState.placements st !! PrintObject.id r1 = Some p1 ->
    PackState.placements st !! PrintObject.id r2 = Some p2 ->
    PackingPlacement.xMm p1 + PrintObject.widthMm r1 <= PackingPlacement.xMm p2
}.

(** ** Pages and points of the layout *)

Definition nonEmpty {A} (l : list A) : bool :=
  match l with [] => false | _ :: _ => true end.

(** The cells of the grid in the order the loops visit them. *)
Definition gridCells (columns rows : Z) : list (Z * Z) :=
  flat_map (fun rowIndex => map (pair rowIndex) (seqZ 0 columns)) (seqZ 0 rows).

Definition commandsAt (textures : gmap string Texture.t) (objects : list PrintObject.t)
    (sheet : SheetDimensions.t) (cell : Z * Z) : list DrawCommand :=
  cellCommands textures objects sheet cell.1 cell.2.

(** The pages that count: those of the document once [hasAnyPage] is set. *)
Definition pagesOf (st : bool * Doc.t) : list (list DrawCommand) :=
  if fst st then Doc.pages (snd st) else [].

(** While [hasAnyPage] is false the document is the untouched new one. *)
Definition fresh (st : bool * Doc.t) : Prop := fst st = false -> snd st = Doc.new.

(** The destination rectangle of a command, relative to its cell. *)
Definition destination (cmd : DrawCommand) : Q * Q * Q * Q :=
  match cmd with
  | ImageCrop _ _ _ _ x y w h => (x, y, w, h)
  | Fill _ x y w h => (x, y, w, h)
  end.

(** The point [(px, py)] of the layout lies in the rectangle that the cell
    [(rowIndex, columnIndex)] draws for the object, moved back by the
    origin of the cell. *)
Definition covers (textures : gmap string Texture.t) (sheet : SheetDimensions.t)
    (object : PrintObject.t) (rowIndex columnIndex : Z) (px py : Q) : Prop :=
  let originX := inject_Z columnIndex * SheetDimensions.widthMm sheet in
  let originY := inject_Z rowIndex * SheetDimensions.heightMm sheet in
  match objectCommand textures sheet originX originY object with
  | None => False
  | Some cmd =>
      let '(x, y, w, h) := destination cmd in
      (originX + x <= px /\ px < originX + x + w) /\
      (originY + y <= py /\ py < originY + y + h)
  end.

Definition inObject (object : PrintObject.t) (px py : Q) : Prop :=
  (PrintObject.xMm object <= px /\
   px < PrintObject.xMm object + PrintObject.widthMm object) /\
  (PrintObject.yMm object <= py /\
   py < PrintObject.yMm object + PrintObject.heightMm object).

Definition inGrid (sheet : SheetDimensions.t) (columns rows : Z) (px py : Q) : Prop :=
  (0 <= px /\ px < inject_Z columns * SheetDimensions.widthMm sheet) /\
  (0 <= py /\ py < inject_Z rows * SheetDimensions.heightMm sheet).

Definition inCell (sheet : SheetDimensions.t) (rowIndex columnIndex : Z) (px py : Q)
    : Prop :=
  (inject_Z columnIndex * SheetDimensions.widthMm sheet <= px /\
   px < inject_Z columnIndex * SheetDimensions.widthMm sheet
        + SheetDimensions.widthMm sheet) /\
  (inject_Z rowIndex * SheetDimensions.heightMm sheet <= py /\
   py < inject_Z rowIndex * SheetDimensions.heightMm sheet
        + SheetDimensions.heightMm sheet).

Definition cellIntersection (sheet : SheetDimensions.t) (object : PrintObject.t)
    (rowIndex columnIndex : Z) : Intersection.t :=
  intersect object sheet
    (inject_Z columnIndex * SheetDimensions.widthMm sheet)
    (inject_Z rowIndex * SheetDimensions.heightMm sheet).

(** ** Vocabulary of the further properties *)

(** The shelves are bands one below the other, starting at [y]. *)
Fixpoint stackedFrom (y : Q) (shelves : list Shelf.t) : Prop :=
  match shelves with
  | [] => True
  | s :: rest => Shelf.yMm s == y /\ stackedFrom (y + Shelf.heightMm s) rest
  end.


(** No shelf is used beyond [maxUsedWidthMm]. *)
Definition widestOk (st : PackState.t) : Prop :=
  0 <= PackState.maxUsedWidthMm st /\
  Forall (fun s => Shelf.usedWidthMm s <= PackState.maxUsedWidthMm st) (PackState.shelves st).

(** Rectangle [k] of [done] was placed on shelf [trace !! k] at a height
    that is not negative and not below where that shelf is now, and it is
    not higher than that shelf. *)
Definition raisedOk (st : PackState.t) (done : list PrintObject.t) (trace : list nat) : Prop :=
  forall k r s,
    done !! k = Some r -> trace !! k = Some s ->
    exists p sh,
      PackState.placements st !! PrintObject.id r = Some p /\
      PackState.shelves st !! s = Some sh /\
      0 <= PackingPlacement.yMm p /\
      PackingPlacement.yMm p <= Shelf.yMm sh /\
      PrintObject.heightMm r <= Shelf.heightMm sh.

(** The sort key of the optimiser and the order it sorts into. *)
Definition sortKey (r : PrintObject.t) : Q :=
  JS.Math_max (PrintObject.widthMm r) (PrintObject.heightMm r).

Definition packsBefore (a b : PrintObject.t) : Prop :=
  sortKey b < sortKey a \/
  (sortKey b == sortKey a /\
   (PrintObject.heightMm b < PrintObject.heightMm a \/
    (PrintObject.heightMm b == PrintObject.heightMm a /\
     PrintObject.widthMm b <= PrintObject.widthMm a))).

(** The number of sheets of a layout. *)
Definition sheetCount (r : PackingResult.t) : Z :=
  (PackingResult.columns r * PackingResult.rows r)%Z.

(** The destination rectangle lies on the sheet and is more than [EPSILON]
    wide and high. *)
Definition onSheet (sheet : SheetDimensions.t) (cmd : DrawCommand) : Prop :=
  let '(x, y, w, h) := destination cmd in
  0 <= x /\ x + w <= SheetDimensions.widthMm sheet /\
  0 <= y /\ y + h <= SheetDimensions.heightMm sheet /\
  EPSILON < w /\ EPSILON < h.

(** The source is one that [exportLayoutToPdf] loads: present and not the
    empty string. *)
Definition hasSource (object : PrintObject.t) (src : string) : Prop :=
  PrintObject.textureSrc object = Some src /\ src <> EmptyString.

(** An object of the given size at [(x, y)] with respect to a layout: inside
    it when it fits, covering it when it is larger. *)
Definition settled (layoutMm sizeMm posMm : Q) : Prop :=
  (sizeMm <= layoutMm -> 0 <= posMm /\ posMm + sizeMm <= layoutMm) /\
  (layoutMm <= sizeMm -> posMm <= 0 /\ layoutMm <= posMm + sizeMm).

(** ** The range in which the rationals stand for the doubles *)

(** 10^11 mm, a width of 100000 km. *)
Definition widthLimitMm : Q := 100000000000.

(** Sheets at least [EPSILON] wide and rectangles at most [widthLimitMm]
    wide.  For such inputs the quotient of line 109 is at most 10^15, below
    2^53: the column counter of line 114 holds exact integers and
    [columns += 1] advances it.  And the three roundings between
    [maxWidthRequirement] and the right-hand side of the width test of
    line 31 (the quotient of line 109, the product of line 115, the sum with
    [EPSILON]) each move a value by at most 2^-53 of itself, together by
    less than 0.00004 mm, which the tolerance [EPSILON] of that test
    absorbs: the test decides in doubles as it does here at
    [minimumColumns], and at the larger column counts of the loop, the
    rounded product being monotone in [columns]. *)
Definition roundingSafe (objects : list PrintObject.t) (sheetWidthMm : Q) : Prop :=
  EPSILON <= sheetWidthMm /\
  Forall (fun r => PrintObject.widthMm r <= widthLimitMm) objects.

(** ** Worked inputs *)

(** A plain rectangle, for the worked examples. *)
Definition rectangle (id : string) (w h : Q) : PrintObject.t :=
  PrintObject.mk id id w h 0 0 "#5c6ac4" None None None.

(** An object at a position of the layout, for the worked examples. *)
Definition placed (id : string) (x y w h : Q) : PrintObject.t :=
  PrintObject.mk id id w h x y "#5c6ac4" None None None.

(** Scenario A of the specification, in packing order. *)
Definition scenarioA : list PrintObject.t :=
  [rectangle "a" 100 50; rectangle "b" 100 50; rectangle "c" 100 100].

(** Four rectangles, already in the optimiser's order, of which the last is
    higher than the shelf it is added to: the shelves after that shelf move
    down ([placeOnShelf_shape]), while the placements stored for them are
    copies of the old [yMm]. *)
Definition staleInput : list PrintObject.t :=
  [rectangle "B" 60 10; rectangle "A" 50 10; rectangle "A2" 45 10; rectangle "C" 35 40].



(** An object 100 mm wide carrying a texture 10 pixels wide, on sheets
    99.9 mm wide: the second sheet shows its last 0.1 mm. *)
Definition narrowStrip : PrintObject.t := placed "a" 0 0 100 10.
Definition narrowSheet : SheetDimensions.t := SheetDimensions.mk 99.9 100.

(** An object 100.00005 mm wide on two sheets of 100 mm: the second sheet
    would show its last 0.00005 mm. *)
Definition sliverStrip : PrintObject.t := placed "a" 0 0 100.00005 10.
Definition squareSheet : SheetDimensions.t := SheetDimensions.mk 100 100.


(** One rectangle of 10^19 mm, for sheets 210 mm wide: about 4.8 * 10^16
    columns, where adding 1 to a double returns the same double. *)
Definition endlessStrip : list Doubles.PrintObject.t :=
  [Doubles.rectangle "wide" 10000000000000000000 100].

(** * Properties *)

(** ** Numbers *)

Lemma leb_true (a b : Q) : JS.leb a b = true <-> a <= b.
Proof. apply Qle_bool_iff. Qed.

Lemma leb_false (a b : Q) : JS.leb a b = false <-> b < a.
Proof.
  unfold JS.leb. rewrite <- not_true_iff_false, Qle_bool_iff.
  split; [apply Qnot_le_lt | apply Qlt_not_le].
Qed.

Lemma ltb_true (a b : Q) : JS.ltb a b = true <-> a < b.
Proof. unfold JS.ltb. rewrite negb_true_iff. apply leb_false. Qed.

Lemma ltb_false (a b : Q) : JS.ltb a b = false <-> b <= a.
Proof. unfold JS.ltb. rewrite negb_false_iff. apply leb_true. Qed.

(** Case analysis on every comparison of the goal, each outcome turned
    into an inequality. *)
Ltac js_cases :=
  unfold JS.Math_max, JS.Math_min in *;
  repeat match goal with
    | |- context [JS.leb ?a ?b] =>
        let E := fresh "E" in
        destruct (JS.leb a b) eqn:E; [apply leb_true in E | apply leb_false in E]
    | |- context [JS.ltb ?a ?b] =>
        let E := fresh "E" in
        destruct (JS.ltb a b) eqn:E; [apply ltb_true in E | apply ltb_false in E]
    end.

Lemma Math_max_l (a b : Q) : a <= JS.Math_max a b.
Proof. js_cases; lra. Qed.

Lemma Math_max_r (a b : Q) : b <= JS.Math_max a b.
Proof. js_cases; lra. Qed.

Lemma Math_max_cases (a b : Q) : JS.Math_max a b = a \/ JS.Math_max a b = b.
Proof. js_cases; auto. Qed.

Lemma EPSILON_pos : 0 < EPSILON.
Proof. reflexivity. Qed.

(** [Math.ceil (a / b)] is the least integer [n] with [a <= n * b]. *)
Lemma ceil_div_upper (a b : Q) : 0 < b -> a <= inject_Z (JS.Math_ceil (a / b)) * b.
Proof.
  intros Hb. unfold JS.Math_ceil.
  pose proof (Qle_ceiling (a / b)) as H.
  apply (Qmult_le_compat_r _ _ b) in H; [|lra].
  rewrite Qmult_comm, Qmult_div_r in H; [exact H|lra].
Qed.


(** ** The packer: one iteration *)

Section PackRect.
Variable maxWidthMm : Q.

(** What the scan returns is the incoming best index or a position of the
    scanned part whose shelf has room for [w]. *)
Lemma scanShelves_spec (w : Q) (rest : list Shelf.t) :
  forall (index : nat) (best : option nat) (tightest : option Q) (i : nat),
    scanShelves maxWidthMm w rest index best tightest = Some i ->
    best = Some i \/
    exists shelf, rest !! (i - index)%nat = Some shelf /\ (index <= i)%nat /\
                  Shelf.usedWidthMm shelf + w <= maxWidthMm + EPSILON.
Proof.
  induction rest as [|shelf rest IH]; intros index best tightest i; simpl.
  - auto.
  - destruct (JS.leb _ _) eqn:Hfit; [destruct (below _ _)|]; intros H;
      apply IH in H as [H|(s & Hs & Hle & Hw)].
    + injection H as <-. right. exists shelf.
      rewrite Nat.sub_diag. apply leb_true in Hfit. auto.
    + right. exists s. replace (i - index)%nat with (S (i - S index)) by lia.
      split; [exact Hs|]. split; [lia | exact Hw].
    + auto.
    + right. exists s. replace (i - index)%nat with (S (i - S index)) by lia.
      split; [exact Hs|]. split; [lia | exact Hw].
    + auto.
    + right. exists s. replace (i - index)%nat with (S (i - S index)) by lia.
      split; [exact Hs|]. split; [lia | exact Hw].
Qed.

Lemma findBestShelf_fits (w : Q) (shelves : list Shelf.t) (i : nat) :
  findBestShelf maxWidthMm w shelves = Some i ->
  exists shelf, shelves !! i = Some shelf /\
                Shelf.usedWidthMm shelf + w <= maxWidthMm + EPSILON.
Proof.
  intros H. apply scanShelves_spec in H as [H|(s & Hs & _ & Hw)]; [discriminate|].
  rewrite Nat.sub_0_r in Hs. eauto.
Qed.

(** The index the scan returns is inside the shelf array. *)
Lemma scanShelves_lt (w : Q) (shelves : list Shelf.t) (i : nat) :
  findBestShelf maxWidthMm w shelves = Some i -> (i < length shelves)%nat.
Proof.
  intros H. apply findBestShelf_fits in H as (s & Hs & _).
  eapply lookup_lt_Some, Hs.
Qed.

Lemma packRect_Some (st st' : PackState.t) (rect : PrintObject.t) :
  packRect maxWidthMm st rect = Some st' ->
  PrintObject.widthMm rect <= maxWidthMm + EPSILON /\ packed maxWidthMm st rect st'.
Proof.
  unfold packRect. destruct (JS.ltb _ _) eqn:Hw; [discriminate|].
  apply ltb_false in Hw. intros H. split; [exact Hw|].
  destruct (findBestShelf _ _ _) as [i|] eqn:Hbest.
  - destruct (findBestShelf_fits _ _ _ Hbest) as (s & Hs & Hfit).
    rewrite Hs in H. injection H as <-. by eapply packed_place.
  - injection H as <-. by apply packed_open.
Qed.

(** An iteration fails exactly on a rectangle wider than the bound plus
    the tolerance. *)
Lemma packRect_None (st : PackState.t) (rect : PrintObject.t) :
  packRect maxWidthMm st rect = None <->
  maxWidthMm + EPSILON < PrintObject.widthMm rect.
Proof.
  unfold packRect. destruct (JS.ltb _ _) eqn:Hw.
  - apply ltb_true in Hw. tauto.
  - apply ltb_false in Hw. split; [|intros; lra].
    destruct (findBestShelf _ _ _) as [i|] eqn:Hbest; [|discriminate].
    destruct (findBestShelf_fits _ _ _ Hbest) as (s & Hs & _).
    rewrite Hs. discriminate.
Qed.

Lemma packLoop_None (rectangles : list PrintObject.t) :
  forall st,
    packLoop maxWidthMm st rectangles = None <->
    exists rect, rect ∈ rectangles /\ maxWidthMm + EPSILON < PrintObject.widthMm rect.
Proof.
  induction rectangles as [|rect rest IH]; intros st; simpl.
  - split; [discriminate|]. intros (r & Hr & _). by apply not_elem_of_nil in Hr.
  - destruct (packRect maxWidthMm st rect) as [st'|] eqn:Hstep.
    + rewrite IH. split.
      * intros (r & Hr & Hw). exists r. split; [by apply elem_of_cons; right | exact Hw].
      * intros (r & Hr & Hw). apply elem_of_cons in Hr as [->|Hr]; [|eauto].
        apply (proj2 (packRect_None st rect)) in Hw.
        rewrite Hw in Hstep. discriminate.
    + split; [|done]. intros _. exists rect.
      split; [apply elem_of_cons; by left | by apply (packRect_None st)].
Qed.

Lemma packed_placements (st st' : PackState.t) (rect : PrintObject.t) :
  packed maxWidthMm st rect st' ->
  exists p, PackState.placements st' = <[PrintObject.id rect := p]> (PackState.placements st).
Proof.
  intros [Hb|i shelf Hb Hs Hfit]; [by eexists|].
  unfold placeOnShelf. destruct (JS.ltb _ _); by eexists.
Qed.

Lemma packLoop_dom (rectangles : list PrintObject.t) :
  forall st st',
    packLoop maxWidthMm st rectangles = Some st' ->
    dom (PackState.placements st') =
    list_to_set (PrintObject.id <$> rectangles) ∪ dom (PackState.placements st).
Proof.
  induction rectangles as [|rect rest IH]; intros st st'; simpl.
  - intros [= <-]. set_solver.
  - destruct (packRect maxWidthMm st rect) as [st1|] eqn:Hstep; [|discriminate].
    intros H. apply IH in H. rewrite H.
    apply packRect_Some in Hstep as [_ Hp].
    apply packed_placements in Hp as [p ->]. rewrite dom_insert_L. set_solver.
Qed.

End PackRect.

(** ** The packer: what an iteration does to the shelves *)

Lemma shifted_map (d : Q) (l : list Shelf.t) : Forall2 (shifted d) l (map (shiftDown d) l).
Proof.
  induction l as [|s l IH]; simpl; constructor; [|exact IH].
  unfold shifted, shiftDown; simpl. repeat split; reflexivity.
Qed.

Lemma shifted_zero (l : list Shelf.t) : Forall2 (shifted 0) l l.
Proof.
  induction l as [|s l IH]; constructor; [|exact IH].
  unfold shifted. repeat split; try reflexivity. lra.
Qed.

Lemma shiftFrom_middle (d : Q) (l1 l2 : list Shelf.t) (s : Shelf.t) :
  shiftFrom (S (length l1)) d (l1 ++ s :: l2) = l1 ++ s :: map (shiftDown d) l2.
Proof.
  unfold shiftFrom. rewrite (cons_middle s l1 l2), app_assoc.
  rewrite take_app_length', drop_app_length' by (rewrite length_app; simpl; lia).
  by rewrite <- app_assoc.
Qed.

(** Placing on shelf [i]: the shelves before it are untouched, shelf [i]
    gets wider by the rectangle and higher by [d >= 0], the shelves after it
    move down by [d], and so does the running total. *)
Lemma placeOnShelf_shape (st : PackState.t) (rect : PrintObject.t) (i : nat) (shelf : Shelf.t) :
  PackState.shelves st !! i = Some shelf ->
  exists (shelf' : Shelf.t) (after' : list Shelf.t) (d : Q),
    PackState.shelves (placeOnShelf st rect i shelf)
      = take i (PackState.shelves st) ++ shelf' :: after' /\
    Forall2 (shifted d) (drop (S i) (PackState.shelves st)) after' /\
    Shelf.yMm shelf' = Shelf.yMm shelf /\
    Shelf.usedWidthMm shelf' = Shelf.usedWidthMm shelf + PrintObject.widthMm rect /\
    Shelf.heightMm shelf' == Shelf.heightMm shelf + d /\
    0 <= d /\
    PrintObject.heightMm rect <= Shelf.heightMm shelf' /\
    PackState.totalHeightMm (placeOnShelf st rect i shelf)
      == PackState.totalHeightMm st + d /\
    PackState.placements (placeOnShelf st rect i shelf)
      = <[PrintObject.id rect :=
            PackingPlacement.mk (Shelf.usedWidthMm shelf) (Shelf.yMm shelf)]>
          (PackState.placements st).
Proof.
  intros Hs. pose proof (lookup_lt_Some _ _ _ Hs) as Hlt.
  assert (Hlen : length (take i (PackState.shelves st)) = i)
    by (rewrite length_take; lia).
  unfold placeOnShelf. destruct (JS.ltb _ _) eqn:Hgrow; simpl.
  - apply ltb_true in Hgrow.
    eexists _, _, (PrintObject.heightMm rect - Shelf.heightMm shelf).
    rewrite insert_take_drop by exact Hlt.
    rewrite <- Hlen at 1. rewrite shiftFrom_middle.
    split; [reflexivity|]. split; [apply shifted_map|]. simpl.
    repeat split; try reflexivity; lra.
  - apply ltb_false in Hgrow.
    eexists _, _, 0. rewrite insert_take_drop by exact Hlt.
    split; [reflexivity|]. split; [apply shifted_zero|]. simpl.
    repeat split; try reflexivity; lra.
Qed.

(** ** The packer: width and area invariants *)

Lemma sumQ_app {A} (f : A -> Q) (l1 l2 : list A) :
  sumQ f (l1 ++ l2) == sumQ f l1 + sumQ f l2.
Proof. induction l1 as [|x l1 IH]; simpl; [lra | rewrite IH; lra]. Qed.

Lemma sumQ_Forall2 {A} (f : A -> Q) (l l' : list A) :
  Forall2 (fun a b => f b == f a) l l' -> sumQ f l' == sumQ f l.
Proof. induction 1 as [|a b l l' Hab _ IH]; simpl; [lra | rewrite Hab, IH; lra]. Qed.


Lemma sumQ_nonneg {A} (f : A -> Q) (l : list A) :
  Forall (fun x => 0 <= f x) l -> 0 <= sumQ f l.
Proof. induction 1; simpl; lra. Qed.

Section PackInvariants.
Variable maxWidthMm : Q.

Lemma usedOk_shifted (d : Q) (l l' : list Shelf.t) (P : Q -> Prop) :
  Forall2 (shifted d) l l' ->
  Forall (fun s => P (Shelf.usedWidthMm s)) l ->
  Forall (fun s => P (Shelf.usedWidthMm s)) l'.
Proof.
  induction 1 as [|a b l l' (Hu & _) _ IH]; intros HF; [constructor|].
  apply Forall_cons in HF as [Ha HF]. constructor; [by rewrite Hu | auto].
Qed.

Lemma usedOk_step (st st' : PackState.t) (rect : PrintObject.t) :
  0 <= PrintObject.widthMm rect ->
  usedOk maxWidthMm st -> packRect maxWidthMm st rect = Some st' -> usedOk maxWidthMm st'.
Proof.
  intros Hw Hok Hstep. apply packRect_Some in Hstep as [Hfit Hp].
  unfold usedOk in *. destruct Hp as [Hb|i shelf Hb Hs Hroom].
  - simpl. apply Forall_app. split; [exact Hok|].
    constructor; [simpl; lra | constructor].
  - destruct (placeOnShelf_shape st rect i shelf Hs)
      as (shelf' & after' & d & -> & Hsh & _ & Hu & _).
    rewrite <- (take_drop_middle _ _ _ Hs) in Hok.
    apply Forall_app in Hok as [H1 H2]. apply Forall_cons in H2 as [[H0 _] H2].
    apply Forall_app. split; [exact H1|]. constructor.
    + rewrite Hu. lra.
    + eapply (usedOk_shifted d _ _ (fun u => 0 <= u /\ u <= maxWidthMm + EPSILON));
        [exact Hsh | exact H2].
Qed.

Lemma heights_shifted (d : Q) (l l' : list Shelf.t) :
  Forall2 (shifted d) l l' ->
  Forall (fun s => 0 <= Shelf.heightMm s) l ->
  Forall (fun s => 0 <= Shelf.heightMm s) l'.
Proof.
  induction 1 as [|a b l l' (_ & Hh & _) _ IH]; intros HF; [constructor|].
  apply Forall_cons in HF as [Ha HF]. constructor; [by rewrite Hh | auto].
Qed.

Lemma areaOk_step (st st' : PackState.t) (rect : PrintObject.t) (area : Q) :
  0 <= PrintObject.widthMm rect -> 0 <= PrintObject.heightMm rect ->
  usedOk maxWidthMm st -> areaOk st area ->
  packRect maxWidthMm st rect = Some st' ->
  areaOk st' (area + areaOf rect).
Proof.
  intros Hw Hh Hused [Hhs Htot Harea] Hstep.
  apply packRect_Some in Hstep as [Hfit Hp].
  destruct Hp as [Hb|i shelf Hb Hs Hroom].
  - split; simpl.
    + apply Forall_app. split; [exact Hhs|]. by repeat constructor.
    + rewrite sumQ_app. simpl. lra.
    + rewrite sumQ_app. unfold areaOf, shelfArea at 2. simpl. lra.
  - destruct (placeOnShelf_shape st rect i shelf Hs)
      as (shelf' & after' & d & Hsh' & Hsh & _ & Hu & Hh' & Hd & Hrh & Ht' & _).
    unfold usedOk in Hused.
    rewrite <- (take_drop_middle _ _ _ Hs) in Hhs, Htot, Harea, Hused.
    apply Forall_app in Hhs as [H1 H2]. apply Forall_cons in H2 as [H0 H2].
    apply Forall_app in Hused as [_ Hu2]. apply Forall_cons in Hu2 as [[Hu0 _] _].
    rewrite sumQ_app in Htot, Harea. simpl in Htot, Harea.
    assert (Hsame : sumQ Shelf.heightMm after'
                    == sumQ Shelf.heightMm (drop (S i) (PackState.shelves st))).
    { apply sumQ_Forall2. eapply Forall2_impl; [exact Hsh|].
      intros a b (_ & -> & _). reflexivity. }
    assert (Hsame' : sumQ shelfArea after'
                     == sumQ shelfArea (drop (S i) (PackState.shelves st))).
    { apply sumQ_Forall2. eapply Forall2_impl; [exact Hsh|].
      intros a b (Ha & Hb' & _). unfold shelfArea. rewrite Ha, Hb'. reflexivity. }
    split; rewrite Hsh'.
    + apply Forall_app. split; [exact H1|]. constructor; [lra|].
      eapply heights_shifted; [exact Hsh | exact H2].
    + rewrite sumQ_app. simpl. rewrite Hsame, Ht'. lra.
    + rewrite sumQ_app. simpl. rewrite Hsame'.
      unfold areaOf. unfold shelfArea at 2. unfold shelfArea at 2 in Harea.
      rewrite Hu. nra.
Qed.


Lemma finishPacking_total_ge (st : PackState.t) :
  PackState.totalHeightMm st <= Packing.totalHeightMm (finishPacking maxWidthMm st).
Proof. unfold finishPacking. simpl. apply Math_max_l. Qed.


End PackInvariants.

(** ** The packer: where the rectangles are placed *)

Section Placed.
Variable maxWidthMm : Q.

(** One successful iteration, seen from the shelf the rectangle lands on:
    the rectangle starts where that shelf ended (at 0 on a new shelf), the
    shelf now ends where the rectangle ends, and the other shelves keep
    their used width. *)
Lemma packRect_lands (st st' : PackState.t) (rect : PrintObject.t) :
  packRect maxWidthMm st rect = Some st' ->
  exists (p : PackingPlacement.t) (sh' : Shelf.t),
    PackState.placements st' = <[PrintObject.id rect := p]> (PackState.placements st) /\
    PackState.shelves st' !! chosenShelf maxWidthMm st rect = Some sh' /\
    Shelf.usedWidthMm sh' == PackingPlacement.xMm p + PrintObject.widthMm rect /\
    Shelf.usedWidthMm sh' <= maxWidthMm + EPSILON /\
    match PackState.shelves st !! chosenShelf maxWidthMm st rect with
    | Some sh => Shelf.usedWidthMm sh = PackingPlacement.xMm p
    | None => PackingPlacement.xMm p = 0
    end /\
    forall (s : nat) (sh : Shelf.t),
      s <> chosenShelf maxWidthMm st rect ->
      PackState.shelves st !! s = Some sh ->
      exists sh2, PackState.shelves st' !! s = Some sh2 /\
                  Shelf.usedWidthMm sh2 = Shelf.usedWidthMm sh.
Proof.
  intros Hstep. apply packRect_Some in Hstep as [Hfit Hp].
  unfold chosenShelf. destruct Hp as [Hb|i shelf Hb Hs Hroom]; rewrite Hb.
  - eexists _, _. split; [reflexivity|]. simpl.
    split; [by apply list_lookup_middle|]. simpl.
    split; [lra|]. split; [exact Hfit|].
    split; [by rewrite lookup_ge_None_2|].
    intros s sh _ Hsh. exists sh. split; [|reflexivity].
    rewrite lookup_app_l; [exact Hsh | eapply lookup_lt_Some, Hsh].
  - destruct (placeOnShelf_shape st rect i shelf Hs)
      as (shelf' & after' & d & Hsh' & Hsh & _ & Hu & _ & _ & _ & _ & Hpl).
    pose proof (lookup_lt_Some _ _ _ Hs) as Hlt.
    assert (Hlen : length (take i (PackState.shelves st)) = i)
      by (rewrite length_take; lia).
    exists (PackingPlacement.mk (Shelf.usedWidthMm shelf) (Shelf.yMm shelf)), shelf'.
    split; [exact Hpl|]. rewrite Hsh', Hs. simpl.
    split; [by apply list_lookup_middle|].
    split; [rewrite Hu; lra|]. split; [rewrite Hu; exact Hroom|].
    split; [reflexivity|].
    intros s sh Hne Hlook. destruct (decide (s < i)%nat) as [Hsi|Hsi].
    + exists sh. split; [|reflexivity].
      rewrite lookup_app_l by lia. by rewrite lookup_take_lt.
    + assert (Hdrop : drop (S i) (PackState.shelves st) !! (s - S i)%nat = Some sh).
      { rewrite lookup_drop. replace (S i + (s - S i))%nat with s by lia. exact Hlook. }
      destruct (Forall2_lookup_l _ _ _ _ _ Hsh Hdrop) as (sh2 & Hsh2 & Hu2 & _).
      exists sh2. split; [|exact Hu2].
      rewrite lookup_app_r by lia. rewrite Hlen.
      replace (s - i)%nat with (S (s - S i)) by lia. exact Hsh2.
Qed.

Lemma placedOk_step (st st' : PackState.t) (done : list PrintObject.t)
    (trace : list nat) (rect : PrintObject.t) :
  0 <= PrintObject.widthMm rect ->
  PrintObject.id rect ∉ PrintObject.id <$> done ->
  usedOk maxWidthMm st -> placedOk st done trace ->
  packRect maxWidthMm st rect = Some st' ->
  placedOk st' (done ++ [rect]) (trace ++ [chosenShelf maxWidthMm st rect]).
Proof.
  intros Hw Hfresh Hused [Hlen Hon Hapart] Hstep.
  destruct (packRect_lands _ _ _ Hstep) as (p & sh' & Hpl & Hsh' & Hend & _ & Hstart & Hrest).
  set (c := chosenShelf maxWidthMm st rect) in *.
  assert (Hold : forall k r, done !! k = Some r ->
            PackState.placements st' !! PrintObject.id r
            = PackState.placements st !! PrintObject.id r).
  { intros k r Hk. rewrite Hpl. apply lookup_insert_ne. intros Heq.
    apply Hfresh. rewrite Heq. apply list_elem_of_fmap_2.
    by eapply list_elem_of_lookup_2. }
  assert (Hnew : PackState.placements st' !! PrintObject.id rect = Some p).
  { rewrite Hpl. apply lookup_insert_eq. }
  assert (Hx0 : 0 <= PackingPlacement.xMm p).
  { destruct (PackState.shelves st !! c) as [sh|] eqn:Hc.
    - rewrite <- Hstart. unfold usedOk in Hused.
      eapply Forall_lookup_1 in Hused; [|exact Hc]. tauto.
    - rewrite Hstart. lra. }
  (* an earlier rectangle still lies inside its shelf *)
  assert (Hon' : forall k r s, done !! k = Some r -> trace !! k = Some s ->
            exists p0 sh0,
              PackState.placements st !! PrintObject.id r = Some p0 /\
              PackState.shelves st' !! s = Some sh0 /\
              0 <= PackingPlacement.xMm p0 /\
              PackingPlacement.xMm p0 + PrintObject.widthMm r <= Shelf.usedWidthMm sh0 /\
              (s = c -> PackingPlacement.xMm p0 + PrintObject.widthMm r
                        <= PackingPlacement.xMm p)).
  { intros k r s Hk Hs. destruct (Hon k r s Hk Hs) as (p0 & sh0 & Hp0 & Hsh0 & H0 & Hin).
    destruct (decide (s = c)) as [->|Hne].
    - rewrite Hsh0 in Hstart. rewrite Hstart in Hin.
      exists p0, sh'. repeat split; try done. lra.
    - destruct (Hrest s sh0 Hne Hsh0) as (sh2 & Hsh2 & Hu2).
      exists p0, sh2. rewrite Hu2. repeat split; done. }
  split.
  - rewrite !length_app. simpl. lia.
  - intros k r s Hk Hs.
    apply lookup_snoc_Some in Hk as [[Hk1 Hk]|[-> <-]];
      apply lookup_snoc_Some in Hs as [[Hs1 Hs]|[Hs1 <-]]; try lia.
    + destruct (Hon' k r s Hk Hs) as (p0 & sh0 & Hp0 & Hsh0 & H0 & Hin & _).
      exists p0, sh0. rewrite (Hold k r Hk). done.
    + exists p, sh'. repeat split; try done. lra.
  - intros k1 k2 r1 r2 s p1 p2 Hlt Hk1 Hk2 Hs1 Hs2 Hp1 Hp2.
    apply lookup_snoc_Some in Hk2 as [[Hk2' Hk2]|[-> <-]];
      apply lookup_snoc_Some in Hs2 as [[Hs2' Hs2]|[Hs2' <-]]; try lia.
    + rewrite lookup_app_l in Hk1 by lia. rewrite lookup_app_l in Hs1 by lia.
      rewrite (Hold _ _ Hk1) in Hp1. rewrite (Hold _ _ Hk2) in Hp2.
      by eapply (Hapart k1 k2).
    + rewrite lookup_app_l in Hk1 by lia. rewrite lookup_app_l in Hs1 by lia.
      rewrite (Hold _ _ Hk1) in Hp1. rewrite Hnew in Hp2. injection Hp2 as <-.
      destruct (Hon' k1 r1 c Hk1 Hs1) as (p0 & sh0 & Hp0 & _ & _ & _ & Hc).
      rewrite Hp0 in Hp1. injection Hp1 as <-. by apply Hc.
Qed.

Lemma packLoop_placed (rectangles : list PrintObject.t) :
  forall (st st' : PackState.t) (done : list PrintObject.t) (trace : list nat),
    Forall (fun r => 0 <= PrintObject.widthMm r) rectangles ->
    NoDup (PrintObject.id <$> (done ++ rectangles)) ->
    usedOk maxWidthMm st -> placedOk st done trace ->
    packLoop maxWidthMm st rectangles = Some st' ->
    usedOk maxWidthMm st' /\
    placedOk st' (done ++ rectangles) (trace ++ shelfTrace maxWidthMm st rectangles).
Proof.
  induction rectangles as [|rect rest IH]; intros st st' done trace Hpos Hnd Hu Hp; simpl.
  - intros [= <-]. by rewrite !app_nil_r.
  - apply Forall_cons in Hpos as [Hw Hpos].
    destruct (packRect maxWidthMm st rect) as [st1|] eqn:Hstep; [|discriminate].
    intros Hloop.
    rewrite (cons_middle rect done rest), app_assoc in Hnd |- *.
    rewrite (cons_middle _ trace), app_assoc.
    apply (IH st1); try done.
    + by eapply usedOk_step.
    + apply placedOk_step; try done.
      rewrite fmap_app, fmap_app in Hnd. apply NoDup_app in Hnd as [Hnd _].
      apply NoDup_app in Hnd as (_ & Hnd & _).
      intros Hin. apply (Hnd _ Hin). simpl. apply list_elem_of_singleton. done.
Qed.

End Placed.

(** ** The packer: results *)

Example scenarioA_packing :
  option_map (fun p => (Packing.placements p !! "a", Packing.placements p !! "b",
                        Packing.placements p !! "c"))
             (packWithinWidth scenarioA 210)
  = Some (Some (PackingPlacement.mk 0 0), Some (PackingPlacement.mk 100 0),
          Some (PackingPlacement.mk 0 50)).
Proof. reflexivity. Qed.

(** C6: [packWithinWidth] returns null exactly when some rectangle of the
    input is wider than [maxWidthMm + EPSILON]; when it succeeds, the keys of
    the placement map are the ids of the input rectangles, so with unique ids
    the map has one entry per rectangle. *)
Theorem packWithinWidth_NoFit_iff (rectangles : list PrintObject.t) (maxWidthMm : Q) :
  (packWithinWidth rectangles maxWidthMm = None <->
   exists rect, rect ∈ rectangles /\ maxWidthMm + EPSILON < PrintObject.widthMm rect) /\
  (forall packing,
     packWithinWidth rectangles maxWidthMm = Some packing ->
     dom (Packing.placements packing) = list_to_set (PrintObject.id <$> rectangles) /\
     (NoDup (PrintObject.id <$> rectangles) ->
      size (Packing.placements packing) = length rectangles)).
Proof.
  unfold packWithinWidth. split.
  - rewrite <- (packLoop_None maxWidthMm rectangles PackState.init).
    destruct (packLoop maxWidthMm PackState.init rectangles);
      split; intros H; discriminate H || reflexivity.
  - intros packing.
    destruct (packLoop maxWidthMm PackState.init rectangles) as [st|] eqn:Hloop;
      [|discriminate].
    intros [= <-]. simpl. apply packLoop_dom in Hloop.
    assert (Hdom : dom (PackState.placements st)
                   = list_to_set (PrintObject.id <$> rectangles)).
    { rewrite Hloop. simpl. rewrite dom_empty_L. apply (right_id_L ∅ (∪)). }
    split; [exact Hdom|]. intros Hnd.
    rewrite <- size_dom, Hdom, size_list_to_set by exact Hnd.
    apply length_fmap.
Qed.

Lemma packWithinWidth_NoFit_iff_witness :
  exists packing,
    packWithinWidth scenarioA 210 = Some packing /\
    size (Packing.placements packing) = 3%nat.
Proof.
  destruct (packWithinWidth scenarioA 210) as [packing|] eqn:Hp; [|discriminate].
  exists packing. split; [reflexivity|].
  apply (proj2 (proj2 (packWithinWidth_NoFit_iff scenarioA 210) packing Hp)).
  repeat constructor; set_solver.
Defined.

(** C7: in a successful packing of rectangles with unique ids and
    non-negative widths, every rectangle lies between 0 and
    [maxWidthMm + EPSILON], and two rectangles that went to the same shelf
    have disjoint x-ranges [[x, x + width)]. *)
Theorem packWithinWidth_shelf_disjoint (rectangles : list PrintObject.t)
    (maxWidthMm : Q) (packing : Packing.t) :
  NoDup (PrintObject.id <$> rectangles) ->
  Forall (fun r => 0 <= PrintObject.widthMm r) rectangles ->
  packWithinWidth rectangles maxWidthMm = Some packing ->
  (forall k r,
     rectangles !! k = Some r ->
     exists p s,
       Packing.placements packing !! PrintObject.id r = Some p /\
       shelfTrace maxWidthMm PackState.init rectangles !! k = Some s /\
       0 <= PackingPlacement.xMm p /\
       PackingPlacement.xMm p + PrintObject.widthMm r <= maxWidthMm + EPSILON) /\
  (forall k1 k2 r1 r2 s p1 p2,
     k1 <> k2 ->
     rectangles !! k1 = Some r1 -> rectangles !! k2 = Some r2 ->
     shelfTrace maxWidthMm PackState.init rectangles !! k1 = Some s ->
     shelfTrace maxWidthMm PackState.init rectangles !! k2 = Some s ->
     Packing.placements packing !! PrintObject.id r1 = Some p1 ->
     Packing.placements packing !! PrintObject.id r2 = Some p2 ->
     PackingPlacement.xMm p1 + PrintObject.widthMm r1 <= PackingPlacement.xMm p2 \/
     PackingPlacement.xMm p2 + PrintObject.widthMm r2 <= PackingPlacement.xMm p1).
Proof.
  intros Hnd Hpos. unfold packWithinWidth.
  destruct (packLoop maxWidthMm PackState.init rectangles) as [st|] eqn:Hloop;
    [|discriminate].
  intros [= <-]. simpl.
  assert (Hu0 : usedOk maxWidthMm PackState.init) by constructor.
  assert (Hp0 : placedOk PackState.init [] []).
  { split; [done | intros k r s Hk; by rewrite lookup_nil in Hk
                 | intros k1 k2 r1 r2 s p1 p2 _ Hk; by rewrite lookup_nil in Hk]. }
  destruct (packLoop_placed maxWidthMm rectangles PackState.init st [] []
              Hpos Hnd Hu0 Hp0 Hloop) as [Hused [Hlen Hon Hapart]].
  simpl in *. split.
  - intros k r Hk.
    destruct (shelfTrace maxWidthMm PackState.init rectangles !! k) as [s|] eqn:Hs.
    + destruct (Hon k r s Hk Hs) as (p & sh & Hp & Hsh & H0 & Hin).
      exists p, s. repeat split; try done.
      unfold usedOk in Hused. eapply Forall_lookup_1 in Hused; [|exact Hsh].
      simpl in Hused. lra.
    + apply lookup_ge_None in Hs. apply lookup_lt_Some in Hk. lia.
  - intros k1 k2 r1 r2 s p1 p2 Hne Hk1 Hk2 Hs1 Hs2 Hp1 Hp2.
    destruct (decide (k1 < k2)%nat).
    + left. by eapply (Hapart k1 k2).
    + right. eapply (Hapart k2 k1); try done. lia.
Qed.

Lemma packWithinWidth_shelf_disjoint_witness :
  exists packing,
    packWithinWidth scenarioA 210 = Some packing /\
    forall p1 p2,
      Packing.placements packing !! "a" = Some p1 ->
      Packing.placements packing !! "b" = Some p2 ->
      PackingPlacement.xMm p1 + 100 <= PackingPlacement.xMm p2 \/
      PackingPlacement.xMm p2 + 100 <= PackingPlacement.xMm p1.
Proof.
  destruct (packWithinWidth scenarioA 210) as [packing|] eqn:Hp; [|discriminate].
  exists packing. split; [reflexivity|]. intros p1 p2 H1 H2.
  assert (Hnd : NoDup (PrintObject.id <$> scenarioA))
    by (repeat constructor; set_solver).
  assert (Hpos : Forall (fun r => 0 <= PrintObject.widthMm r) scenarioA)
    by (repeat constructor; discriminate).
  exact (proj2 (packWithinWidth_shelf_disjoint scenarioA 210 packing Hnd Hpos Hp)
           0%nat 1%nat (rectangle "a" 100 50) (rectangle "b" 100 50) 0%nat p1 p2
           (Nat.neq_0_succ 0) eq_refl eq_refl eq_refl eq_refl H1 H2).
Defined.

(** C8 (evaluation at the failing input): with width bound 100, "A2" is
    placed on shelf 1 at (50, 10) while that shelf starts at y = 10; then "C"
    (35 x 40) goes to shelf 0 at (60, 0) and shelf 1 moves to y = 40, but the
    placement of "A2" stays at y = 10: both rectangles cover the point
    (70, 15).  The list is already in the optimiser's order, and
    [optimisePackingLayout] returns these placements for sheets of
    100 x 50 mm. *)
Theorem packWithinWidth_stale_placement :
  shelfTrace 100 PackState.init staleInput = [0; 1; 1; 0]%nat /\
  option_map PackState.shelves (packLoop 100 PackState.init staleInput)
    = Some [Shelf.mk 0 40 95; Shelf.mk 40 10 95] /\
  exists packing,
    packWithinWidth staleInput 100 = Some packing /\
    Packing.placements packing !! "A2" = Some (PackingPlacement.mk 50 10) /\
    Packing.placements packing !! "C" = Some (PackingPlacement.mk 60 0) /\
    (50 <= 70 < 50 + 45 /\ 10 <= 15 < 10 + 10) /\
    (60 <= 70 < 60 + 35 /\ 0 <= 15 < 0 + 40) /\
    sortBy compareObjects staleInput = staleInput /\
    option_map PackingResult.placements (optimisePackingLayout staleInput 100 50)
      = Some (Packing.placements packing).
Proof.
  split; [reflexivity|]. split; [reflexivity|].
  eexists. split; [reflexivity|].
  split; [reflexivity|]. split; [reflexivity|].
  split; [repeat split; reflexivity || discriminate|].
  split; [repeat split; reflexivity || discriminate|].
  split; [reflexivity | vm_compute; reflexivity].
Qed.

(** ** The optimiser *)

Lemma insertSorted_Permutation {A} (cmp : A -> A -> Q) (x : A) (l : list A) :
  insertSorted cmp x l ≡ₚ x :: l.
Proof.
  induction l as [|y l IH]; simpl; [done|].
  destruct (JS.ltb 0 (cmp x y)); [|done].
  rewrite IH. apply Permutation_swap.
Qed.

(** Sorting rearranges the objects and nothing else. *)
Lemma sortBy_Permutation {A} (cmp : A -> A -> Q) (l : list A) : sortBy cmp l ≡ₚ l.
Proof.
  induction l as [|x l IH]; simpl; [done|].
  unfold sortBy in *. simpl. rewrite insertSorted_Permutation. by rewrite IH.
Qed.


Lemma maxWidth_fold_ge (l : list PrintObject.t) :
  forall acc,
    acc <= fold_left (fun max rect => JS.Math_max max (PrintObject.widthMm rect)) l acc /\
    forall r, r ∈ l ->
      PrintObject.widthMm r
      <= fold_left (fun max rect => JS.Math_max max (PrintObject.widthMm rect)) l acc.
Proof.
  induction l as [|x l IH]; intros acc; simpl.
  - split; [lra|]. intros r Hr. by apply not_elem_of_nil in Hr.
  - destruct (IH (JS.Math_max acc (PrintObject.widthMm x))) as [H1 H2].
    pose proof (Math_max_l acc (PrintObject.widthMm x)).
    pose proof (Math_max_r acc (PrintObject.widthMm x)).
    split; [lra|]. intros r Hr. apply elem_of_cons in Hr as [->|Hr]; [lra | auto].
Qed.

Lemma maxWidth_fold_attained (l : list PrintObject.t) :
  forall acc,
    fold_left (fun max rect => JS.Math_max max (PrintObject.widthMm rect)) l acc = acc \/
    exists r, r ∈ l /\
      fold_left (fun max rect => JS.Math_max max (PrintObject.widthMm rect)) l acc
      = PrintObject.widthMm r.
Proof.
  induction l as [|x l IH]; intros acc; simpl; [by left|].
  destruct (IH (JS.Math_max acc (PrintObject.widthMm x))) as [H|(r & Hr & H)].
  - rewrite H. destruct (Math_max_cases acc (PrintObject.widthMm x)) as [->| ->];
      [by left | right]. exists x. split; [apply elem_of_cons; by left | done].
  - right. exists r. split; [apply elem_of_cons; by right | done].
Qed.

Lemma maxWidthOf_ge (l : list PrintObject.t) (r : PrintObject.t) :
  r ∈ l -> PrintObject.widthMm r <= maxWidthOf l.
Proof. apply maxWidth_fold_ge. Qed.

Lemma maxWidthOf_attained (l : list PrintObject.t) :
  maxWidthOf l = 0 \/ exists r, r ∈ l /\ maxWidthOf l = PrintObject.widthMm r.
Proof. apply maxWidth_fold_attained. Qed.

Lemma packWithinWidth_None (rectangles : list PrintObject.t) (maxWidthMm : Q) :
  packWithinWidth rectangles maxWidthMm = None <->
  exists rect, rect ∈ rectangles /\ maxWidthMm + EPSILON < PrintObject.widthMm rect.
Proof.
  unfold packWithinWidth.
  rewrite <- (packLoop_None maxWidthMm rectangles PackState.init).
  destruct (packLoop maxWidthMm PackState.init rectangles);
    split; intros H; discriminate H || reflexivity.
Qed.

Section Optimiser.
Variables sheetWidthMm sheetHeightMm : Q.

Section ColumnLoop.
Variable sorted : list PrintObject.t.
Variable totalArea : Q.

Local Abbreviation step := (tryColumns sorted sheetWidthMm sheetHeightMm totalArea).

(** Once a candidate is held, the loop never goes back to null. *)
Lemma tryColumns_keeps (best : option PackingResult.t) (columns : Z) :
  is_Some best -> is_Some (step best columns).
Proof.
  intros [b ->]. unfold step, tryColumns.
  destruct (packWithinWidth _ _); [|by eexists].
  simpl. destruct (replaces _ _ _ _ _); by eexists.
Qed.

Lemma columnLoop_keeps (cols : list Z) :
  forall best, is_Some best -> is_Some (fold_left step cols best).
Proof.
  induction cols as [|c cols IH]; intros best Hb; simpl; [exact Hb|].
  by apply IH, tryColumns_keeps.
Qed.

(** What the loop returns is what it started with or the candidate of
    one of the column counts it tried. *)
Lemma columnLoop_chosen (cols : list Z) :
  forall best b,
    fold_left step cols best = Some b ->
    best = Some b \/
    exists c packing,
      c ∈ cols /\
      packWithinWidth sorted (inject_Z c * sheetWidthMm) = Some packing /\
      b = candidateOf sheetWidthMm sheetHeightMm totalArea c packing.
Proof.
  induction cols as [|c cols IH]; intros best b; simpl; [by left|].
  intros H. apply IH in H as [H|(c' & packing & Hc & Hp & ->)].
  - unfold step, tryColumns in H.
    destruct (packWithinWidth sorted (inject_Z c * sheetWidthMm)) as [packing|] eqn:Hp;
      [|by left].
    destruct best as [b0|].
    + simpl in H. destruct (replaces _ _ _ _ _); [|by left].
      injection H as <-. right. exists c, packing.
      split; [apply elem_of_cons; by left | done].
    + injection H as <-. right. exists c, packing.
      split; [apply elem_of_cons; by left | done].
  - right. exists c', packing. split; [apply elem_of_cons; by right | done].
Qed.

End ColumnLoop.

Hypothesis sheetWidth_pos : 0 < sheetWidthMm.

(** At the first column count of the search every rectangle fits.  This
    and the two lemmas after it are facts of exact arithmetic; doubles
    agree inside the range [roundingSafe]. *)
Lemma minimumColumns_fits (sorted : list PrintObject.t) (r : PrintObject.t) :
  r ∈ sorted ->
  PrintObject.widthMm r <= inject_Z (minimumColumnsOf sorted sheetWidthMm) * sheetWidthMm.
Proof.
  intros Hr. pose proof (maxWidthOf_ge _ _ Hr) as Hmax.
  pose proof (ceil_div_upper (maxWidthOf sorted) _ sheetWidth_pos) as Hceil.
  unfold minimumColumnsOf.
  assert (Hz : inject_Z (JS.Math_ceil (maxWidthOf sorted / sheetWidthMm))
               <= inject_Z (Z.max 1 (JS.Math_ceil (maxWidthOf sorted / sheetWidthMm))))
    by (rewrite <- Zle_Qle; lia).
  nra.
Qed.

Lemma minimumColumns_feasible (sorted : list PrintObject.t) :
  is_Some (packWithinWidth sorted
             (inject_Z (minimumColumnsOf sorted sheetWidthMm) * sheetWidthMm)).
Proof.
  destruct (packWithinWidth _ _) as [p|] eqn:Hp; [by eexists|].
  apply packWithinWidth_None in Hp as (r & Hr & Hw).
  pose proof (minimumColumns_fits _ _ Hr). pose proof EPSILON_pos. lra.
Qed.

Lemma optimise_is_Some (objects : list PrintObject.t) :
  objects <> [] -> is_Some (optimisePackingLayout objects sheetWidthMm sheetHeightMm).
Proof.
  intros Hne. unfold optimisePackingLayout. destruct objects as [|o objects]; [done|].
  set (sorted := sortBy compareObjects (o :: objects)).
  set (lo := minimumColumnsOf sorted sheetWidthMm).
  rewrite seqZ_cons by (unfold maximumColumnsOf; lia). simpl.
  apply columnLoop_keeps. unfold tryColumns.
  destruct (minimumColumns_feasible sorted) as [p Hp]. fold lo in Hp.
  rewrite Hp. by eexists.
Qed.

(** The result is the candidate of one column count of the search range,
    built from a successful packing of the sorted objects. *)
Lemma optimise_chosen (objects : list PrintObject.t) (result : PackingResult.t) :
  optimisePackingLayout objects sheetWidthMm sheetHeightMm = Some result ->
  exists c packing,
    (minimumColumnsOf (sortBy compareObjects objects) sheetWidthMm <= c
     <= maximumColumnsOf (minimumColumnsOf (sortBy compareObjects objects) sheetWidthMm))%Z /\
    packWithinWidth (sortBy compareObjects objects) (inject_Z c * sheetWidthMm)
      = Some packing /\
    result = candidateOf sheetWidthMm sheetHeightMm
               (totalAreaOf (sortBy compareObjects objects)) c packing.
Proof.
  unfold optimisePackingLayout. destruct objects as [|o objects]; [discriminate|].
  set (sorted := sortBy compareObjects (o :: objects)).
  intros H. apply columnLoop_chosen in H as [H|(c & packing & Hc & Hp & ->)];
    [discriminate|].
  exists c, packing. split; [|done]. apply elem_of_seqZ in Hc. lia.
Qed.

End Optimiser.

(** ** The optimiser: results *)

Lemma candidateOf_rows (sw sh area : Q) (c : Z) (packing : Packing.t) :
  (1 <= PackingResult.rows (candidateOf sw sh area c packing))%Z.
Proof. simpl. lia. Qed.






(** C2: for a non-empty list whose rectangles are at most 24 sheets wide the
    optimiser returns a layout with between 1 and 24 columns and at least one
    row; for the empty list it returns null. *)
Theorem optimise_within_grid (objects : list PrintObject.t) (sheetWidthMm sheetHeightMm : Q) :
  0 < sheetWidthMm -> 0 < sheetHeightMm ->
  Forall (fun r => PrintObject.widthMm r <= 24 * sheetWidthMm) objects ->
  (objects = [] -> optimisePackingLayout objects sheetWidthMm sheetHeightMm = None) /\
  (objects <> [] ->
   exists result,
     optimisePackingLayout objects sheetWidthMm sheetHeightMm = Some result /\
     (1 <= PackingResult.columns result <= 24)%Z /\
     (1 <= PackingResult.rows result)%Z).
Proof.
  intros Hsw _ Hfit. split; [by intros ->|]. intros Hne.
  destruct (optimise_is_Some sheetWidthMm sheetHeightMm Hsw objects Hne) as [result Hres].
  exists result. split; [exact Hres|].
  apply optimise_chosen in Hres as (c & packing & Hc & _ & ->).
  set (sorted := sortBy compareObjects objects) in *.
  assert (Hperm : sorted ≡ₚ objects) by apply sortBy_Permutation.
  split; [|apply candidateOf_rows]. simpl.
  assert (Hmax : maxWidthOf sorted <= 24 * sheetWidthMm).
  { destruct (maxWidthOf_attained sorted) as [->|(r & Hr & ->)]; [lra|].
    rewrite Hperm in Hr. by eapply Forall_forall in Hfit. }
  assert (Hceil : (JS.Math_ceil (maxWidthOf sorted / sheetWidthMm) <= 24)%Z).
  { unfold JS.Math_ceil. rewrite <- (Qceiling_Z 24). apply Qceiling_resp_le.
    change (inject_Z 24) with 24. by apply Qle_shift_div_r. }
  unfold maximumColumnsOf, minimumColumnsOf, MAX_SHEET_GRID in Hc. lia.
Qed.

Lemma optimise_within_grid_witness :
  exists result,
    optimisePackingLayout scenarioA 210 297 = Some result /\
    (1 <= PackingResult.columns result <= 24)%Z /\
    (1 <= PackingResult.rows result)%Z.
Proof.
  apply (optimise_within_grid scenarioA 210 297).
  - reflexivity.
  - reflexivity.
  - repeat constructor; discriminate.
  - discriminate.
Defined.

(** In doubles the column counter of the loop stays where it is once adding
    1 no longer changes it: if the body then keeps [best], the loop runs for
    any number of steps. *)
Lemma columnLoop_stalls (sorted : list Doubles.PrintObject.t)
    (sheetWidthMm sheetHeightMm totalArea maximumColumns columns : float)
    (best : Doubles.PackingResult.t) :
  PrimFloat.leb columns maximumColumns = true ->
  PrimFloat.add columns 1 = columns ->
  Doubles.tryColumns sorted sheetWidthMm sheetHeightMm totalArea (Some best) columns
  = Some best ->
  forall fuel,
    Doubles.columnLoop fuel sorted sheetWidthMm sheetHeightMm totalArea
                       maximumColumns columns (Some best) = None.
Proof.
  intros Hle Hadd Hbest fuel. induction fuel as [|fuel IH]; [reflexivity|].
  simpl. rewrite Hle, Hadd, Hbest. exact IH.
Qed.

(** In doubles, a rectangle of 10^19 mm on sheets 210 mm wide: the loop of
    line 114 does not end, whatever the number of steps allowed. *)
Lemma optimise_endless_in_doubles (fuel : nat) :
  Doubles.optimisePackingLayout fuel endlessStrip 210 297 = None.
Proof.
  destruct fuel as [|fuel]; [reflexivity|].
  unfold Doubles.optimisePackingLayout, endlessStrip. cbv zeta.
  set (sorted := Doubles.sortBy _ _).
  set (totalArea := Doubles.totalAreaOf _).
  set (minimumColumns := Doubles.Math_max 1 _).
  set (maximumColumns := Doubles.Math_max minimumColumns _).
  change (Doubles.columnLoop (S fuel) sorted 210 297 totalArea maximumColumns
                             minimumColumns None)
    with (if PrimFloat.leb minimumColumns maximumColumns
          then Doubles.columnLoop fuel sorted 210 297 totalArea maximumColumns
                 (PrimFloat.add minimumColumns 1)
                 (Doubles.tryColumns sorted 210 297 totalArea None minimumColumns)
          else Some None).
  assert (Hle : PrimFloat.leb minimumColumns maximumColumns = true)
    by (vm_compute; reflexivity).
  assert (Hadd : PrimFloat.add minimumColumns 1 = minimumColumns)
    by (vm_compute; reflexivity).
  rewrite Hle, Hadd.
  destruct (Doubles.tryColumns sorted 210 297 totalArea None minimumColumns)
    as [best|] eqn:Hbest.
  - apply columnLoop_stalls; [exact Hle | exact Hadd |].
    revert Hbest. vm_compute. intros [= <-]. reflexivity.
  - exfalso. revert Hbest. vm_compute. discriminate.
Qed.

(** In doubles, as in the rationals, a rectangle of 6000 mm on sheets of
    210 mm is laid out on 29 columns and 2 rows. *)
Lemma optimise_oversized_in_doubles :
  exists result,
    Doubles.optimisePackingLayout 2 [Doubles.rectangle "a" 6000 300] 210 297
    = Some (Some result) /\
    Doubles.PackingResult.columns result = 29%float /\
    Doubles.PackingResult.rows result = 2%float.
Proof. eexists. split; [vm_compute; reflexivity|]. split; reflexivity. Qed.







(** ** The texture crop *)

(** C9, refuted as stated: on the second sheet the intersection is 0.1 mm
    wide, the crop starts at pixel 9.99 and is one pixel wide, so it ends
    beyond the 10 pixels of the source. *)
Lemma textureCrop_beyond_source :
  exists crop canvasWidth canvasHeight x y w h,
    cellCommands {["a" := Texture.mk "img" 10 10]} [narrowStrip] narrowSheet 0 1
      = [ImageCrop "img" crop canvasWidth canvasHeight x y w h] /\
    EPSILON < w /\ EPSILON < h /\
    Crop.sx crop == 9.99 /\ Crop.sWidth crop == 1 /\
    ~ (Crop.sx crop + Crop.sWidth crop <= inject_Z 10).
Proof.
  do 7 eexists. split; [vm_compute; reflexivity|]. simpl.
  repeat split; try reflexivity.
  intros H. vm_compute in H. apply H. reflexivity.
Qed.

(** An intersection that passes the guard belongs to an object of positive
    width and height. *)
Lemma not_skipped_positive (object : PrintObject.t) (sheet : SheetDimensions.t)
    (originX originY : Q) :
  skipped (intersect object sheet originX originY) = false ->
  0 < PrintObject.widthMm object /\ 0 < PrintObject.heightMm object.
Proof.
  unfold skipped. rewrite orb_false_iff, !leb_false.
  unfold Intersection.interWidth, Intersection.interHeight, intersect. simpl.
  pose proof EPSILON_pos. intros [H1 H2]. revert H1 H2. js_cases; intros; split; lra.
Qed.

(** C9, amended: the crop origin is the stated maximum and is not negative,
    the crop is at least one pixel wide and high, and it ends inside the
    source unless less than one pixel is left after the origin, in which case
    it ends one pixel after the origin. *)
Theorem textureCrop_bounds (object : PrintObject.t) (widthPx heightPx : Z)
    (i : Intersection.t) :
  Crop.sx (textureCrop object widthPx heightPx i)
  = JS.Math_max 0 ((Intersection.interLeft i - PrintObject.xMm object)
                   * (inject_Z widthPx / PrintObject.widthMm object)) /\
  Crop.sy (textureCrop object widthPx heightPx i)
  = JS.Math_max 0 ((Intersection.interTop i - PrintObject.yMm object)
                   * (inject_Z heightPx / PrintObject.heightMm object)) /\
  0 <= Crop.sx (textureCrop object widthPx heightPx i) /\
  0 <= Crop.sy (textureCrop object widthPx heightPx i) /\
  1 <= Crop.sWidth (textureCrop object widthPx heightPx i) /\
  1 <= Crop.sHeight (textureCrop object widthPx heightPx i) /\
  Crop.sx (textureCrop object widthPx heightPx i)
  + Crop.sWidth (textureCrop object widthPx heightPx i)
  <= JS.Math_max (inject_Z widthPx) (Crop.sx (textureCrop object widthPx heightPx i) + 1) /\
  Crop.sy (textureCrop object widthPx heightPx i)
  + Crop.sHeight (textureCrop object widthPx heightPx i)
  <= JS.Math_max (inject_Z heightPx) (Crop.sy (textureCrop object widthPx heightPx i) + 1).
Proof.
  unfold textureCrop. simpl.
  set (sx := JS.Math_max 0 _). set (sy := JS.Math_max 0 _).
  set (w := Intersection.interWidth i * _). set (h := Intersection.interHeight i * _).
  split; [reflexivity|]. split; [reflexivity|].
  split; [apply Math_max_l|]. split; [apply Math_max_l|].
  split; [apply Math_max_l|]. split; [apply Math_max_l|].
  clearbody sx sy w h. split; js_cases; lra.
Qed.

(** ** Page emission *)

Lemma gridCells_elem (columns rows r c : Z) :
  (r, c) ∈ gridCells columns rows <-> (0 <= r < rows)%Z /\ (0 <= c < columns)%Z.
Proof.
  unfold gridCells. rewrite list_elem_of_In, in_flat_map. split.
  - intros (r' & Hr & Hc). apply in_map_iff in Hc as (c' & [= <- <-] & Hc).
    apply list_elem_of_In, elem_of_seqZ in Hr. apply list_elem_of_In, elem_of_seqZ in Hc. lia.
  - intros [Hr Hc]. exists r. split.
    + apply list_elem_of_In, elem_of_seqZ. lia.
    + apply in_map, list_elem_of_In, elem_of_seqZ. lia.
Qed.

Lemma fold_left_flat_map {A B C} (f : A -> C -> A) (g : B -> list C) (l : list B) :
  forall a, fold_left f (flat_map g l) a = fold_left (fun a x => fold_left f (g x) a) l a.
Proof.
  induction l as [|x l IH]; intros a; simpl; [done|].
  by rewrite fold_left_app, IH.
Qed.

Lemma fold_left_map {A B C} (f : A -> C -> A) (h : B -> C) (l : list B) :
  forall a, fold_left f (map h l) a = fold_left (fun a x => f a (h x)) l a.
Proof. induction l as [|x l IH]; intros a; simpl; [done | apply IH]. Qed.

Section Pages.
Variable textures : gmap string Texture.t.
Variable objects : list PrintObject.t.
Variable sheet : SheetDimensions.t.

(** The nested loops visit [gridCells] once, in order. *)
Lemma tileLoop_cells (columns rows : Z) :
  tileLoop textures objects sheet columns rows
  = fold_left emitCell (map (commandsAt textures objects sheet) (gridCells columns rows))
      (false, Doc.new).
Proof.
  unfold tileLoop, gridCells. rewrite fold_left_map, fold_left_flat_map.
  generalize (false, Doc.new). induction (seqZ 0 rows) as [|r l IH]; intros st; simpl;
    [done|].
  rewrite IH. f_equal. by rewrite fold_left_map.
Qed.

Lemma draw_all (cmds : list DrawCommand) :
  forall d, fold_left Doc.draw cmds d = Doc.mk (Doc.before d) (Doc.current d ++ cmds).
Proof.
  induction cmds as [|c cmds IH]; intros [b cur]; simpl.
  - by rewrite app_nil_r.
  - rewrite IH. simpl. by rewrite <- app_assoc.
Qed.

Lemma emitCell_pages (st : bool * Doc.t) (cmds : list DrawCommand) :
  fresh st ->
  fresh (emitCell st cmds) /\
  pagesOf (emitCell st cmds) = pagesOf st ++ (if nonEmpty cmds then [cmds] else []).
Proof.
  intros Hf. destruct cmds as [|c cmds]; simpl.
  - split; [exact Hf | by rewrite app_nil_r].
  - split; [intros H; discriminate H|].
    unfold pagesOf. cbn [fst snd]. rewrite (draw_all cmds).
    destruct st as [[|] d]; simpl.
    + unfold Doc.pages. simpl. reflexivity.
    + unfold fresh in Hf. simpl in Hf. rewrite (Hf eq_refl). reflexivity.
Qed.

Lemma emitCells_pages (cells : list (list DrawCommand)) :
  forall st,
    fresh st ->
    pagesOf (fold_left emitCell cells st) = pagesOf st ++ List.filter nonEmpty cells.
Proof.
  induction cells as [|cmds cells IH]; intros st Hf; simpl.
  - by rewrite app_nil_r.
  - destruct (emitCell_pages st cmds Hf) as [Hf' Hp]. rewrite (IH _ Hf'), Hp.
    rewrite <- app_assoc. by destruct (nonEmpty cmds).
Qed.

(** The pages are the command lists of the non-empty cells, in grid
    order. *)
Lemma tile_filter (columns rows : Z) :
  tile textures objects sheet columns rows
  = List.filter nonEmpty (map (commandsAt textures objects sheet) (gridCells columns rows)).
Proof.
  unfold tile. rewrite tileLoop_cells.
  set (cells := map (commandsAt textures objects sheet) (gridCells columns rows)).
  change (List.filter nonEmpty cells)
    with (pagesOf (false, Doc.new) ++ List.filter nonEmpty cells).
  rewrite <- emitCells_pages by (intros _; reflexivity). reflexivity.
Qed.

(** A cell has a command exactly when some object meets it in more than
    [EPSILON] in both directions. *)
Lemma cellCommands_nonEmpty (rowIndex columnIndex : Z) :
  nonEmpty (cellCommands textures objects sheet rowIndex columnIndex) = true <->
  exists object,
    object ∈ objects /\
    EPSILON < Intersection.interWidth
                (intersect object sheet
                   (inject_Z columnIndex * SheetDimensions.widthMm sheet)
                   (inject_Z rowIndex * SheetDimensions.heightMm sheet)) /\
    EPSILON < Intersection.interHeight
                (intersect object sheet
                   (inject_Z columnIndex * SheetDimensions.widthMm sheet)
                   (inject_Z rowIndex * SheetDimensions.heightMm sheet)).
Proof.
  unfold cellCommands.
  set (originX := inject_Z columnIndex * _). set (originY := inject_Z rowIndex * _).
  assert (Hcmd : forall object,
            is_Some (objectCommand textures sheet originX originY object) <->
            EPSILON < Intersection.interWidth (intersect object sheet originX originY) /\
            EPSILON < Intersection.interHeight (intersect object sheet originX originY)).
  { intros object. unfold objectCommand, skipped.
    destruct (JS.leb (Intersection.interWidth _) EPSILON) eqn:Hw;
      [apply leb_true in Hw | apply leb_false in Hw]; simpl.
    - split; [by intros [? ?] | intros [? _]; lra].
    - destruct (JS.leb (Intersection.interHeight _) EPSILON) eqn:Hh;
        [apply leb_true in Hh | apply leb_false in Hh]; simpl.
      + split; [by intros [? ?] | intros [_ ?]; lra].
      + split; [done|]. intros _. destruct (textures !! _); by eexists. }
  split.
  - intros Hne.
    destruct (omap _ objects) as [|cmd cmds] eqn:Hl; [discriminate|].
    assert (Hin : cmd ∈ omap (objectCommand textures sheet originX originY) objects)
      by (rewrite Hl; apply elem_of_cons; by left).
    apply list_elem_of_omap in Hin as (object & Hobj & Hc).
    exists object. split; [exact Hobj|]. apply Hcmd. by eexists.
  - intros (object & Hobj & Hi). apply Hcmd in Hi as [cmd Hc].
    assert (Hin : cmd ∈ omap (objectCommand textures sheet originX originY) objects)
      by (apply list_elem_of_omap; eauto).
    destruct (omap _ objects); [by apply not_elem_of_nil in Hin | reflexivity].
Qed.

End Pages.

Lemma filter_map_length {A B} (p : B -> bool) (f : A -> B) (l : list A) :
  length (List.filter p (map f l)) = length (List.filter (fun x => p (f x)) l).
Proof.
  induction l as [|x l IH]; simpl; [done|]. destruct (p (f x)); simpl; by rewrite IH.
Qed.

Lemma filter_all_false {A} (p : A -> bool) (l : list A) :
  (forall x, x ∈ l -> p x = false) -> List.filter p l = [].
Proof.
  induction l as [|x l IH]; intros H; simpl; [done|].
  rewrite (H x) by (apply elem_of_cons; by left).
  apply IH. intros y Hy. apply H, elem_of_cons. by right.
Qed.

Lemma skipped_true (i : Intersection.t) :
  skipped i = true <->
  ~ (EPSILON < Intersection.interWidth i /\ EPSILON < Intersection.interHeight i).
Proof.
  unfold skipped. rewrite orb_true_iff, !leb_true. split.
  - intros [H|H] [H1 H2]; lra.
  - intros H. destruct (Qlt_le_dec EPSILON (Intersection.interWidth i)); [|by left].
    destruct (Qlt_le_dec EPSILON (Intersection.interHeight i)); [|by right].
    exfalso. by apply H.
Qed.

(** C5: the pages of the tiling are the command lists of the cells that
    have at least one command, in grid order; a cell has a command exactly
    when some object meets it in more than [EPSILON] in both directions; the
    number of pages is the number of such cells; and when no object meets any
    cell the tiling has no page. *)
Theorem tile_pages (textures : gmap string Texture.t) (objects : list PrintObject.t)
    (sheet : SheetDimensions.t) (columns rows : Z) :
  tile textures objects sheet columns rows
  = List.filter nonEmpty
      (map (fun cell => cellCommands textures objects sheet cell.1 cell.2)
           (gridCells columns rows)) /\
  (forall rowIndex columnIndex,
     nonEmpty (cellCommands textures objects sheet rowIndex columnIndex) = true <->
     exists object,
       object ∈ objects /\
       EPSILON < Intersection.interWidth
                   (intersect object sheet
                      (inject_Z columnIndex * SheetDimensions.widthMm sheet)
                      (inject_Z rowIndex * SheetDimensions.heightMm sheet)) /\
       EPSILON < Intersection.interHeight
                   (intersect object sheet
                      (inject_Z columnIndex * SheetDimensions.widthMm sheet)
                      (inject_Z rowIndex * SheetDimensions.heightMm sheet))) /\
  length (tile textures objects sheet columns rows)
  = length (List.filter
              (fun cell => nonEmpty (cellCommands textures objects sheet cell.1 cell.2))
              (gridCells columns rows)) /\
  ((forall rowIndex columnIndex object,
      (rowIndex, columnIndex) ∈ gridCells columns rows -> object ∈ objects ->
      skipped (intersect object sheet
                 (inject_Z columnIndex * SheetDimensions.widthMm sheet)
                 (inject_Z rowIndex * SheetDimensions.heightMm sheet)) = true) ->
   tile textures objects sheet columns rows = []).
Proof.
  pose proof (tile_filter textures objects sheet columns rows) as Ht.
  unfold commandsAt in Ht.
  split; [exact Ht|]. split; [apply cellCommands_nonEmpty|].
  split; [rewrite Ht; apply filter_map_length|].
  intros Hout. rewrite Ht. apply filter_all_false. intros cmds Hin.
  apply list_elem_of_In, in_map_iff in Hin as ([r c] & <- & Hcell).
  apply list_elem_of_In in Hcell. simpl.
  destruct (nonEmpty _) eqn:Hne; [|reflexivity].
  apply cellCommands_nonEmpty in Hne as (object & Hobj & Hi).
  specialize (Hout r c object Hcell Hobj). apply skipped_true in Hout. contradiction.
Qed.

Lemma tile_pages_witness :
  tile ∅ [placed "far" (-50) (-50) 10 10] (SheetDimensions.mk 210 297) 3 2 = [].
Proof.
  apply (tile_pages ∅ [placed "far" (-50) (-50) 10 10] (SheetDimensions.mk 210 297) 3 2).
  intros r c object Hcell Hobj. apply list_elem_of_singleton in Hobj as ->.
  apply gridCells_elem in Hcell as [Hr Hc].
  assert (r = 0 \/ r = 1)%Z as [-> | ->] by lia;
    (assert (c = 0 \/ c = 1 \/ c = 2)%Z as [-> | [-> | ->]] by lia); reflexivity.
Defined.

(** What [exportLayoutToPdf] saves is the tiling, and it alerts instead when
    the tiling has no page. *)
Lemma exportLayoutToPdf_saved (loadImage : string -> option (Z * Z))
    (object : PrintObject.t) (objects : list PrintObject.t) (sheet : SheetDimensions.t)
    (columns rows : Z) (textures : gmap string Texture.t) :
  loadTextures loadImage (object :: objects) ∅ = Some textures ->
  exportLayoutToPdf loadImage true (object :: objects) sheet columns rows
  = match tile textures (object :: objects) sheet columns rows with
    | [] => AlertNothingToExport
    | pages => Saved pages
    end.
Proof. intros H. unfold exportLayoutToPdf. by rewrite H. Qed.

(** ** Tiling one object over the grid *)

Section Tiling.
Variable textures : gmap string Texture.t.
Variable sheet : SheetDimensions.t.
Variable object : PrintObject.t.

(** In layout coordinates the drawn rectangle is the intersection
    itself. *)
Lemma covers_iff (rowIndex columnIndex : Z) (px py : Q) :
  covers textures sheet object rowIndex columnIndex px py <->
  skipped (cellIntersection sheet object rowIndex columnIndex) = false /\
  (Intersection.interLeft (cellIntersection sheet object rowIndex columnIndex) <= px /\
   px < Intersection.interRight (cellIntersection sheet object rowIndex columnIndex)) /\
  (Intersection.interTop (cellIntersection sheet object rowIndex columnIndex) <= py /\
   py < Intersection.interBottom (cellIntersection sheet object rowIndex columnIndex)).
Proof.
  unfold covers, objectCommand, cellIntersection.
  set (i := intersect object sheet _ _).
  destruct (skipped i); [split; [done | by intros [? _]]|].
  unfold Intersection.interWidth, Intersection.interHeight.
  destruct (textures !! PrintObject.id object); simpl; split;
    intros [[? ?] [? ?]] || intros [_ [[? ?] [? ?]]]; repeat split; lra.
Qed.

(** A point of the intersection is a point of the object and of the
    cell, and conversely. *)
Lemma intersection_iff (rowIndex columnIndex : Z) (px py : Q) :
  (Intersection.interLeft (cellIntersection sheet object rowIndex columnIndex) <= px /\
   px < Intersection.interRight (cellIntersection sheet object rowIndex columnIndex)) /\
  (Intersection.interTop (cellIntersection sheet object rowIndex columnIndex) <= py /\
   py < Intersection.interBottom (cellIntersection sheet object rowIndex columnIndex)) <->
  inObject object px py /\ inCell sheet rowIndex columnIndex px py.
Proof.
  unfold cellIntersection, intersect, inObject, inCell. simpl.
  split.
  - intros [[H1 H2] [H3 H4]]. revert H1 H2 H3 H4. js_cases; intros; repeat split; lra.
  - intros [[[H1 H2] [H3 H4]] [[H5 H6] [H7 H8]]]. js_cases; repeat split; lra.
Qed.

Hypothesis sheetW_pos : 0 < SheetDimensions.widthMm sheet.
Hypothesis sheetH_pos : 0 < SheetDimensions.heightMm sheet.

Lemma column_unique (d : Q) (c c' : Z) (p : Q) :
  0 < d ->
  inject_Z c * d <= p -> p < inject_Z c * d + d ->
  inject_Z c' * d <= p -> p < inject_Z c' * d + d ->
  c = c'.
Proof.
  intros Hd H1 H2 H3 H4.
  assert (Hlt : forall a b : Z,
            inject_Z a * d <= p -> p < inject_Z b * d + d -> (a < b + 1)%Z).
  { intros a b Ha Hb. rewrite Zlt_Qlt, inject_Z_plus.
    change (inject_Z 1) with 1. apply Qnot_le_lt. intros Hge.
    assert (inject_Z b * d + d <= inject_Z a * d) by nra. lra. }
  pose proof (Hlt c c' H1 H4). pose proof (Hlt c' c H3 H2). lia.
Qed.

Lemma column_exists (d : Q) (n : Z) (p : Q) :
  0 < d -> 0 <= p -> p < inject_Z n * d ->
  exists c, (0 <= c < n)%Z /\ inject_Z c * d <= p /\ p < inject_Z c * d + d.
Proof.
  intros Hd H0 Hn. exists (Qfloor (p / d)).
  pose proof (Qfloor_le (p / d)) as Hlo. pose proof (Qlt_floor (p / d)) as Hhi.
  rewrite inject_Z_plus in Hhi. change (inject_Z 1) with 1 in Hhi.
  assert (Hp : p == (p / d) * d) by (field; lra).
  set (q := p / d) in *. set (f := inject_Z (Qfloor q)) in *.
  assert (H1 : f * d <= p) by nra.
  assert (H2 : p < f * d + d) by nra.
  split; [|split; assumption]. split.
  - rewrite <- (Qfloor_Z 0). apply Qfloor_resp_le.
    change (inject_Z 0) with 0. apply Qle_shift_div_l; lra.
  - rewrite Zlt_Qlt. fold f. apply Qnot_le_lt. intros Hge.
    assert (inject_Z n * d <= f * d) by nra. lra.
Qed.

End Tiling.

(** C4, refuted as stated: the point (100.00002, 5) lies in the object and
    in the grid of 2 x 1 sheets, and no cell draws it. *)
Lemma tiling_gap :
  inObject sliverStrip 100.00002 5 /\
  inGrid squareSheet 2 1 100.00002 5 /\
  forall rowIndex columnIndex,
    (rowIndex, columnIndex) ∈ gridCells 2 1 ->
    ~ covers ∅ squareSheet sliverStrip rowIndex columnIndex 100.00002 5.
Proof.
  split; [repeat split; vm_compute; reflexivity || discriminate|].
  split; [repeat split; vm_compute; reflexivity || discriminate|].
  intros r c Hcell. apply gridCells_elem in Hcell as [Hr Hc].
  assert (r = 0)%Z as -> by lia. rewrite covers_iff.
  assert (c = 0 \/ c = 1)%Z as [-> | ->] by lia.
  - intros (_ & [_ H] & _). vm_compute in H. discriminate H.
  - intros [H _]. vm_compute in H. discriminate H.
Qed.

(** C4, amended: on sheets of positive size, what the cells of the grid
    draw of one object lies inside the object and inside the grid, no point
    is drawn by two cells, and a point of the object inside the grid is drawn
    by the cell that contains it unless the intersection of the object with
    that cell is at most [EPSILON] wide or high. *)
Theorem tiling_partition (textures : gmap string Texture.t) (sheet : SheetDimensions.t)
    (object : PrintObject.t) (columns rows : Z) (px py : Q) :
  0 < SheetDimensions.widthMm sheet ->
  0 < SheetDimensions.heightMm sheet ->
  (forall r c,
     (r, c) ∈ gridCells columns rows ->
     covers textures sheet object r c px py ->
     inObject object px py /\ inGrid sheet columns rows px py) /\
  (forall r c r' c',
     covers textures sheet object r c px py ->
     covers textures sheet object r' c' px py ->
     r = r' /\ c = c') /\
  (inObject object px py -> inGrid sheet columns rows px py ->
   exists r c,
     (r, c) ∈ gridCells columns rows /\
     inCell sheet r c px py /\
     (covers textures sheet object r c px py <->
      skipped (intersect object sheet
                 (inject_Z c * SheetDimensions.widthMm sheet)
                 (inject_Z r * SheetDimensions.heightMm sheet)) = false)).
Proof.
  intros Hw Hh.
  assert (Hcell : forall r c, covers textures sheet object r c px py ->
                    inObject object px py /\ inCell sheet r c px py).
  { intros r c Hc. apply covers_iff in Hc as [_ Hc]. by apply intersection_iff in Hc. }
  split; [|split].
  - intros r c Hin Hc. apply Hcell in Hc as [Hobj [[H1 H2] [H3 H4]]].
    split; [exact Hobj|]. apply gridCells_elem in Hin as [Hr Hcol].
    assert (Hc0 : inject_Z 0 <= inject_Z c) by (rewrite <- Zle_Qle; lia).
    assert (Hr0 : inject_Z 0 <= inject_Z r) by (rewrite <- Zle_Qle; lia).
    assert (Hc1 : inject_Z (c + 1) <= inject_Z columns) by (rewrite <- Zle_Qle; lia).
    assert (Hr1 : inject_Z (r + 1) <= inject_Z rows) by (rewrite <- Zle_Qle; lia).
    rewrite inject_Z_plus in Hc1, Hr1.
    change (inject_Z 1) with 1 in Hc1, Hr1. change (inject_Z 0) with 0 in Hc0, Hr0.
    unfold inGrid. repeat split; nra.
  - intros r c r' c' H1 H2.
    apply Hcell in H1 as [_ [[? ?] [? ?]]]. apply Hcell in H2 as [_ [[? ?] [? ?]]].
    split;
      [eapply (column_unique (SheetDimensions.heightMm sheet) r r' py)
      |eapply (column_unique (SheetDimensions.widthMm sheet) c c' px)]; eassumption.
  - intros Hobj [[Hx0 Hx1] [Hy0 Hy1]].
    destruct (column_exists _ columns px Hw Hx0 Hx1) as (c & Hc & Hc1 & Hc2).
    destruct (column_exists _ rows py Hh Hy0 Hy1) as (r & Hr & Hr1 & Hr2).
    exists r, c. split; [by apply gridCells_elem|].
    assert (Hin : inCell sheet r c px py) by (repeat split; assumption).
    split; [exact Hin|]. rewrite covers_iff. split; [by intros [? _]|].
    intros Hs. split; [exact Hs|]. apply intersection_iff. by split.
Qed.

Lemma tiling_partition_witness :
  exists r c,
    (r, c) ∈ gridCells 2 1 /\
    inCell squareSheet r c 50 5 /\
    (covers ∅ squareSheet sliverStrip r c 50 5 <->
     skipped (intersect sliverStrip squareSheet (inject_Z c * 100) (inject_Z r * 100)) = false).
Proof.
  apply (tiling_partition ∅ squareSheet sliverStrip 2 1 50 5).
  - reflexivity.
  - reflexivity.
  - repeat split; vm_compute; reflexivity || discriminate.
  - repeat split; vm_compute; reflexivity || discriminate.
Defined.

(** * Further properties *)

(** ** The packer: the shelf it chooses *)

Section BestFit.
Variables maxWidthMm w : Q.



End BestFit.


(** ** The packer: the shelves as bands *)

Lemma stackedFrom_eq (l : list Shelf.t) :
  forall y y', y == y' -> stackedFrom y l -> stackedFrom y' l.
Proof.
  induction l as [|s l IH]; intros y y' Hy; simpl; [done|].
  intros [Hs Hl]. split; [lra|]. apply (IH (y + Shelf.heightMm s)); [lra | exact Hl].
Qed.

Lemma stackedFrom_app (l1 l2 : list Shelf.t) :
  forall y,
    stackedFrom y (l1 ++ l2) <->
    stackedFrom y l1 /\ stackedFrom (y + sumQ Shelf.heightMm l1) l2.
Proof.
  induction l1 as [|s l1 IH]; intros y; simpl.
  - split; [intros H; split; [done|] | intros [_ H]];
      (eapply stackedFrom_eq; [|exact H]); lra.
  - rewrite IH. split.
    + intros (H1 & H2 & H3). split; [by split|].
      eapply stackedFrom_eq; [|exact H3]. lra.
    + intros ((H1 & H2) & H3). split; [exact H1|]. split; [exact H2|].
      eapply stackedFrom_eq; [|exact H3]. lra.
Qed.

Lemma stackedFrom_shifted (d : Q) (l l' : list Shelf.t) :
  Forall2 (shifted d) l l' ->
  forall y, stackedFrom y l -> stackedFrom (y + d) l'.
Proof.
  induction 1 as [|a b l l' (Hu & Hh & Hy) _ IH]; intros y; simpl; [done|].
  intros [Ha Hl]. split; [lra|]. rewrite Hh.
  eapply stackedFrom_eq; [|apply IH, Hl]. lra.
Qed.

(** A shelf of a stack of bands with non-negative heights lies between the
    start of the stack and its end. *)
Lemma stackedFrom_lookup (l : list Shelf.t) :
  forall y s sh,
    stackedFrom y l -> Forall (fun s => 0 <= Shelf.heightMm s) l ->
    l !! s = Some sh ->
    y <= Shelf.yMm sh /\ Shelf.yMm sh + Shelf.heightMm sh <= y + sumQ Shelf.heightMm l.
Proof.
  induction l as [|a l IH]; intros y s sh; simpl; [by rewrite lookup_nil|].
  intros [Ha Hl] Hpos Hs. apply Forall_cons in Hpos as [H0 Hpos].
  pose proof (sumQ_nonneg _ _ Hpos) as Hsum.
  destruct s as [|s]; simpl in Hs.
  - injection Hs as <-. lra.
  - destruct (IH _ _ _ Hl Hpos Hs). lra.
Qed.

Lemma stackedFrom_last (l : list Shelf.t) :
  forall y s,
    stackedFrom y l -> last l = Some s ->
    Shelf.yMm s + Shelf.heightMm s == y + sumQ Shelf.heightMm l.
Proof.
  induction l as [|a l IH]; intros y s; simpl; [discriminate|].
  intros [Ha Hl]. destruct l as [|b l].
  - intros [= <-]. simpl. lra.
  - intros Hs. rewrite last_cons_cons in Hs || simpl in Hs.
    rewrite (IH _ _ Hl Hs). lra.
Qed.

Section Stacked.
Variable maxWidthMm : Q.

Lemma stacked_step (st st' : PackState.t) (rect : PrintObject.t) :
  packRect maxWidthMm st rect = Some st' ->
  stackedFrom 0 (PackState.shelves st) ->
  sumQ Shelf.heightMm (PackState.shelves st) == PackState.totalHeightMm st ->
  stackedFrom 0 (PackState.shelves st') /\
  sumQ Shelf.heightMm (PackState.shelves st') == PackState.totalHeightMm st'.
Proof.
  intros Hstep Hst Htot. apply packRect_Some in Hstep as [_ Hp].
  destruct Hp as [Hb|i shelf Hb Hs Hroom].
  - simpl. rewrite stackedFrom_app, sumQ_app. simpl.
    split; [|lra]. split; [exact Hst|]. split; [lra | done].
  - destruct (placeOnShelf_shape st rect i shelf Hs)
      as (shelf' & after' & d & -> & Hsh & Hy & _ & Hh & _ & _ & -> & _).
    rewrite <- (take_drop_middle _ _ _ Hs) in Hst, Htot.
    set (before := take i (PackState.shelves st)) in *.
    set (after := drop (S i) (PackState.shelves st)) in *.
    rewrite stackedFrom_app in Hst. destruct Hst as (H1 & H2 & H3).
    rewrite sumQ_app in Htot. simpl in Htot.
    assert (Hsame : sumQ Shelf.heightMm after' == sumQ Shelf.heightMm after).
    { apply sumQ_Forall2. eapply Forall2_impl; [exact Hsh|].
      intros a b (_ & -> & _). reflexivity. }
    rewrite stackedFrom_app, sumQ_app. simpl in *.
    split; [|lra]. split; [exact H1|]. split; [by rewrite Hy|].
    eapply stackedFrom_eq; [|apply (stackedFrom_shifted d _ _ Hsh), H3]. lra.
Qed.

Lemma packLoop_stacked (rectangles : list PrintObject.t) :
  forall st st',
    packLoop maxWidthMm st rectangles = Some st' ->
    stackedFrom 0 (PackState.shelves st) ->
    sumQ Shelf.heightMm (PackState.shelves st) == PackState.totalHeightMm st ->
    stackedFrom 0 (PackState.shelves st') /\
    sumQ Shelf.heightMm (PackState.shelves st') == PackState.totalHeightMm st'.
Proof.
  induction rectangles as [|rect rest IH]; intros st st'; simpl.
  - by intros [= <-].
  - destruct (packRect maxWidthMm st rect) as [st1|] eqn:Hstep; [|discriminate].
    intros Hloop Hst Htot. destruct (stacked_step _ _ _ Hstep Hst Htot).
    by apply (IH st1).
Qed.

(** The maximum of line 83 changes nothing: the last shelf ends at the
    running total. *)
Lemma finishPacking_total (st : PackState.t) :
  stackedFrom 0 (PackState.shelves st) ->
  sumQ Shelf.heightMm (PackState.shelves st) == PackState.totalHeightMm st ->
  Packing.totalHeightMm (finishPacking maxWidthMm st) == PackState.totalHeightMm st.
Proof.
  intros Hst Htot. unfold finishPacking. simpl.
  destruct (last (PackState.shelves st)) as [s|] eqn:Hlast.
  - pose proof (stackedFrom_last _ _ _ Hst Hlast). js_cases; lra.
  - apply last_None in Hlast. rewrite Hlast in Htot. simpl in Htot. js_cases; lra.
Qed.

End Stacked.

(** X2: when the packer has placed all rectangles, its shelves are bands
    one below the other from 0 (each starts where the one before ends), and
    the total height it returns is the sum of the shelf heights. *)
Theorem packLoop_bands (rectangles : list PrintObject.t) (maxWidthMm : Q) (st : PackState.t) :
  packLoop maxWidthMm PackState.init rectangles = Some st ->
  stackedFrom 0 (PackState.shelves st) /\
  Packing.totalHeightMm (finishPacking maxWidthMm st)
  == sumQ Shelf.heightMm (PackState.shelves st) /\
  packWithinWidth rectangles maxWidthMm = Some (finishPacking maxWidthMm st).
Proof.
  intros Hloop.
  destruct (packLoop_stacked maxWidthMm rectangles PackState.init st Hloop)
    as [Hst Htot]; [done | simpl; lra |].
  split; [exact Hst|]. split.
  - rewrite finishPacking_total by done. by rewrite Htot.
  - unfold packWithinWidth. by rewrite Hloop.
Qed.

Lemma packLoop_bands_witness :
  exists st,
    packLoop 100 PackState.init staleInput = Some st /\
    stackedFrom 0 (PackState.shelves st) /\
    Packing.totalHeightMm (finishPacking 100 st) == sumQ Shelf.heightMm (PackState.shelves st).
Proof.
  eexists. split; [reflexivity|].
  refine (let H := packLoop_bands staleInput 100 _ eq_refl in conj (proj1 H) (proj1 (proj2 H))).
Defined.

(** ** The packer: the box around the placements *)

Section Box.
Variable maxWidthMm : Q.

(** One successful iteration, seen vertically: the rectangle is stored at
    the height of the shelf it lands on and is not higher than that shelf,
    and no shelf moves up or shrinks. *)
Lemma packRect_rises (st st' : PackState.t) (rect : PrintObject.t) :
  packRect maxWidthMm st rect = Some st' ->
  exists (p : PackingPlacement.t) (sh' : Shelf.t),
    PackState.placements st' = <[PrintObject.id rect := p]> (PackState.placements st) /\
    PackState.shelves st' !! chosenShelf maxWidthMm st rect = Some sh' /\
    PackingPlacement.yMm p = Shelf.yMm sh' /\
    PrintObject.heightMm rect <= Shelf.heightMm sh' /\
    forall (s : nat) (sh : Shelf.t),
      PackState.shelves st !! s = Some sh ->
      exists sh2, PackState.shelves st' !! s = Some sh2 /\
                  Shelf.yMm sh <= Shelf.yMm sh2 /\
                  Shelf.heightMm sh <= Shelf.heightMm sh2.
Proof.
  intros Hstep. apply packRect_Some in Hstep as [_ Hp].
  unfold chosenShelf. destruct Hp as [Hb|i shelf Hb Hs Hroom]; rewrite Hb.
  - eexists _, _. split; [reflexivity|]. simpl.
    split; [by apply list_lookup_middle|]. simpl.
    split; [reflexivity|]. split; [lra|].
    intros s sh Hsh. exists sh. split; [|lra].
    rewrite lookup_app_l; [exact Hsh | eapply lookup_lt_Some, Hsh].
  - destruct (placeOnShelf_shape st rect i shelf Hs)
      as (shelf' & after' & d & Hsh' & Hsh & Hy & _ & Hh & Hd & Hrh & _ & Hpl).
    pose proof (lookup_lt_Some _ _ _ Hs) as Hlt.
    assert (Hlen : length (take i (PackState.shelves st)) = i)
      by (rewrite length_take; lia).
    exists (PackingPlacement.mk (Shelf.usedWidthMm shelf) (Shelf.yMm shelf)), shelf'.
    split; [exact Hpl|]. rewrite Hsh'. simpl.
    split; [by apply list_lookup_middle|].
    split; [by rewrite Hy|]. split; [exact Hrh|].
    intros s sh Hlook.
    destruct (decide (s < i)%nat) as [Hsi|Hsi]; [|destruct (decide (s = i)) as [->|Hne]].
    + exists sh. split; [|lra].
      rewrite lookup_app_l by lia. by rewrite lookup_take_lt.
    + rewrite Hs in Hlook. injection Hlook as <-. exists shelf'.
      split; [by apply list_lookup_middle|]. rewrite Hy. lra.
    + assert (Hdrop : drop (S i) (PackState.shelves st) !! (s - S i)%nat = Some sh).
      { rewrite lookup_drop. replace (S i + (s - S i))%nat with s by lia. exact Hlook. }
      destruct (Forall2_lookup_l _ _ _ _ _ Hsh Hdrop) as (sh2 & Hsh2 & _ & Hh2 & Hy2).
      exists sh2. split; [|rewrite Hh2; lra].
      rewrite lookup_app_r by lia. rewrite Hlen.
      replace (s - i)%nat with (S (s - S i)) by lia. exact Hsh2.
Qed.

Lemma raisedOk_step (st st' : PackState.t) (done : list PrintObject.t)
    (trace : list nat) (rect : PrintObject.t) :
  length trace = length done ->
  PrintObject.id rect ∉ PrintObject.id <$> done ->
  raisedOk st done trace ->
  packRect maxWidthMm st rect = Some st' ->
  stackedFrom 0 (PackState.shelves st') ->
  Forall (fun s => 0 <= Shelf.heightMm s) (PackState.shelves st') ->
  raisedOk st' (done ++ [rect]) (trace ++ [chosenShelf maxWidthMm st rect]).
Proof.
  intros Hlen Hfresh Hok Hstep Hst' Hpos'.
  destruct (packRect_rises _ _ _ Hstep) as (p & sh' & Hpl & Hsh' & Hy & Hh & Hrest).
  intros k r s Hk Hs.
  apply lookup_snoc_Some in Hk as [[Hk1 Hk]|[-> <-]];
    apply lookup_snoc_Some in Hs as [[Hs1 Hs]|[Hs1 <-]]; try lia.
  - destruct (Hok k r s Hk Hs) as (p0 & sh0 & Hp0 & Hsh0 & H0 & Hy0 & Hh0).
    destruct (Hrest s sh0 Hsh0) as (sh2 & Hsh2 & Hy2 & Hh2).
    exists p0, sh2. split; [|repeat split; try done; lra].
    rewrite Hpl, lookup_insert_ne; [exact Hp0|]. intros Heq.
    apply Hfresh. rewrite Heq. apply list_elem_of_fmap_2.
    by eapply list_elem_of_lookup_2.
  - exists p, sh'. split; [rewrite Hpl; apply lookup_insert_eq|].
    split; [exact Hsh'|].
    destruct (stackedFrom_lookup _ _ _ _ Hst' Hpos' Hsh') as [H0 _].
    rewrite Hy. repeat split; try done; lra.
Qed.

Lemma shelfTrace_length (rectangles : list PrintObject.t) :
  forall st st',
    packLoop maxWidthMm st rectangles = Some st' ->
    length (shelfTrace maxWidthMm st rectangles) = length rectangles.
Proof.
  induction rectangles as [|rect rest IH]; intros st st'; simpl; [done|].
  destruct (packRect maxWidthMm st rect) as [st1|]; [|discriminate].
  intros Hloop. simpl. by rewrite (IH _ _ Hloop).
Qed.

Lemma packLoop_raised (rectangles : list PrintObject.t) :
  forall (st st' : PackState.t) (done : list PrintObject.t) (trace : list nat) (area : Q),
    Forall (fun r => 0 <= PrintObject.widthMm r /\ 0 <= PrintObject.heightMm r) rectangles ->
    NoDup (PrintObject.id <$> (done ++ rectangles)) ->
    length trace = length done ->
    usedOk maxWidthMm st -> areaOk st area ->
    stackedFrom 0 (PackState.shelves st) ->
    raisedOk st done trace ->
    packLoop maxWidthMm st rectangles = Some st' ->
    Forall (fun s => 0 <= Shelf.heightMm s) (PackState.shelves st') /\
    stackedFrom 0 (PackState.shelves st') /\
    sumQ Shelf.heightMm (PackState.shelves st') == PackState.totalHeightMm st' /\
    raisedOk st' (done ++ rectangles) (trace ++ shelfTrace maxWidthMm st rectangles).
Proof.
  induction rectangles as [|rect rest IH];
    intros st st' done trace area Hpos Hnd Hlen Hu Ha Hst Hr; simpl.
  - intros [= <-]. rewrite !app_nil_r. destruct Ha as [H1 H2 _]. done.
  - apply Forall_cons in Hpos as [[Hw Hh] Hpos].
    destruct (packRect maxWidthMm st rect) as [st1|] eqn:Hstep; [|discriminate].
    intros Hloop.
    pose proof (usedOk_step _ _ _ _ Hw Hu Hstep) as Hu1.
    pose proof (areaOk_step _ _ _ _ _ Hw Hh Hu Ha Hstep) as Ha1.
    destruct (stacked_step _ _ _ _ Hstep Hst (ok_total _ _ Ha)) as [Hst1 _].
    rewrite (cons_middle rect done rest), app_assoc in Hnd |- *.
    rewrite (cons_middle _ trace), app_assoc.
    apply (IH st1 st' _ _ (area + areaOf rect) Hpos Hnd); try done.
    + rewrite !length_app. simpl. lia.
    + apply raisedOk_step; try done; [|exact (ok_heights _ _ Ha1)].
      rewrite fmap_app, fmap_app in Hnd. apply NoDup_app in Hnd as [Hnd _].
      apply NoDup_app in Hnd as (_ & Hnd & _).
      intros Hin. apply (Hnd _ Hin). simpl. apply list_elem_of_singleton. done.
Qed.

(** Every rectangle of a successful packing is stored inside the box from
    0 to the bound plus tolerance and from 0 to the returned height. *)
Lemma packWithinWidth_box (rectangles : list PrintObject.t) (packing : Packing.t)
    (k : nat) (r : PrintObject.t) :
  NoDup (PrintObject.id <$> rectangles) ->
  Forall (fun r => 0 <= PrintObject.widthMm r /\ 0 <= PrintObject.heightMm r) rectangles ->
  packWithinWidth rectangles maxWidthMm = Some packing ->
  rectangles !! k = Some r ->
  exists p,
    Packing.placements packing !! PrintObject.id r = Some p /\
    (0 <= PackingPlacement.xMm p /\
     PackingPlacement.xMm p + PrintObject.widthMm r <= maxWidthMm + EPSILON) /\
    (0 <= PackingPlacement.yMm p /\
     PackingPlacement.yMm p + PrintObject.heightMm r <= Packing.totalHeightMm packing).
Proof.
  intros Hnd Hpos. unfold packWithinWidth.
  destruct (packLoop maxWidthMm PackState.init rectangles) as [st|] eqn:Hloop;
    [|discriminate].
  intros [= <-] Hk.
  assert (Hu0 : usedOk maxWidthMm PackState.init) by constructor.
  assert (Ha0 : areaOk PackState.init 0) by (split; simpl; [constructor | lra | lra]).
  assert (Hp0 : placedOk PackState.init [] []).
  { split; [done | intros ? ? ? H; by rewrite lookup_nil in H
                 | intros ? ? ? ? ? ? ? _ H; by rewrite lookup_nil in H]. }
  assert (Hr0 : raisedOk PackState.init [] [])
    by (intros ? ? ? H; by rewrite lookup_nil in H).
  assert (Hposw : Forall (fun r => 0 <= PrintObject.widthMm r) rectangles)
    by (eapply Forall_impl; [exact Hpos | by intros ? [? _]]).
  destruct (packLoop_placed maxWidthMm rectangles PackState.init st [] []
              Hposw Hnd Hu0 Hp0 Hloop) as [Hused [_ Hon _]].
  destruct (packLoop_raised rectangles PackState.init st [] [] 0
              Hpos Hnd eq_refl Hu0 Ha0 I Hr0 Hloop) as (Hhs & Hst & Htot & Hraised).
  simpl in *.
  pose proof (shelfTrace_length _ _ _ Hloop) as Hlen.
  destruct (shelfTrace maxWidthMm PackState.init rectangles !! k) as [s|] eqn:Hs;
    [|apply lookup_ge_None in Hs; apply lookup_lt_Some in Hk; lia].
  destruct (Hon k r s Hk Hs) as (p & sh & Hp & Hsh & Hx0 & Hx).
  destruct (Hraised k r s Hk Hs) as (p' & sh' & Hp' & Hsh' & Hy0 & Hy & Hh).
  rewrite Hp in Hp'. injection Hp' as <-. rewrite Hsh in Hsh'. injection Hsh' as <-.
  exists p. split; [exact Hp|].
  unfold usedOk in Hused. eapply Forall_lookup_1 in Hused; [|exact Hsh]. simpl in Hused.
  destruct (stackedFrom_lookup _ _ _ _ Hst Hhs Hsh) as [_ Hend].
  pose proof (finishPacking_total_ge maxWidthMm st) as Hge.
  unfold finishPacking in Hge. simpl in Hge.
  repeat split; try done; lra.
Qed.

End Box.

(** X3: in a successful packing of rectangles with unique ids and
    non-negative dimensions, every rectangle is stored inside the box that
    the packer reports: between 0 and [maxWidthMm + EPSILON] horizontally and
    between 0 and [totalHeightMm] vertically. *)
Theorem packWithinWidth_inside (rectangles : list PrintObject.t) (maxWidthMm : Q)
    (packing : Packing.t) :
  NoDup (PrintObject.id <$> rectangles) ->
  Forall (fun r => 0 <= PrintObject.widthMm r /\ 0 <= PrintObject.heightMm r) rectangles ->
  packWithinWidth rectangles maxWidthMm = Some packing ->
  forall r,
    r ∈ rectangles ->
    exists p,
      Packing.placements packing !! PrintObject.id r = Some p /\
      0 <= PackingPlacement.xMm p /\
      PackingPlacement.xMm p + PrintObject.widthMm r <= maxWidthMm + EPSILON /\
      0 <= PackingPlacement.yMm p /\
      PackingPlacement.yMm p + PrintObject.heightMm r <= Packing.totalHeightMm packing.
Proof.
  intros Hnd Hpos Hpack r Hr. apply list_elem_of_lookup in Hr as [k Hk].
  destruct (packWithinWidth_box maxWidthMm rectangles packing k r Hnd Hpos Hpack Hk)
    as (p & Hp & [H1 H2] & [H3 H4]).
  by exists p.
Qed.

Lemma packWithinWidth_inside_witness :
  exists packing p,
    packWithinWidth staleInput 100 = Some packing /\
    Packing.placements packing !! "A2" = Some p /\
    PackingPlacement.yMm p + 10 <= Packing.totalHeightMm packing.
Proof.
  assert (Hnd : NoDup (PrintObject.id <$> staleInput))
    by (repeat constructor; set_solver).
  assert (Hpos : Forall (fun r => 0 <= PrintObject.widthMm r /\ 0 <= PrintObject.heightMm r)
                        staleInput) by (repeat constructor; discriminate).
  assert (Hin : rectangle "A2" 45 10 ∈ staleInput) by set_solver.
  destruct (packWithinWidth staleInput 100) as [packing|] eqn:Hp; [|discriminate].
  destruct (packWithinWidth_inside staleInput 100 packing Hnd Hpos Hp _ Hin)
    as (p & Hp1 & _ & _ & _ & Hy).
  exists packing, p. split; [reflexivity|]. split; [exact Hp1 | exact Hy].
Defined.

(** ** The packer: the used width it reports *)

Section UsedWidth.
Variable maxWidthMm : Q.

Lemma widestOk_step (st st' : PackState.t) (rect : PrintObject.t) :
  widestOk st -> packRect maxWidthMm st rect = Some st' -> widestOk st'.
Proof.
  intros [H0 Hall] Hstep. apply packRect_Some in Hstep as [_ Hp].
  unfold widestOk. destruct Hp as [Hb|i shelf Hb Hs Hroom].
  - simpl.
    pose proof (Math_max_l (PackState.maxUsedWidthMm st) (PrintObject.widthMm rect)).
    pose proof (Math_max_r (PackState.maxUsedWidthMm st) (PrintObject.widthMm rect)).
    split; [lra|]. apply Forall_app. split.
    + eapply Forall_impl; [exact Hall|]. simpl. intros; lra.
    + constructor; [simpl; lra | constructor].
  - destruct (placeOnShelf_shape st rect i shelf Hs)
      as (shelf' & after' & d & Hsh' & Hsh & _ & Hu & _).
    assert (Hmax : PackState.maxUsedWidthMm (placeOnShelf st rect i shelf)
                   = JS.Math_max (PackState.maxUsedWidthMm st)
                                 (Shelf.usedWidthMm shelf + PrintObject.widthMm rect)).
    { unfold placeOnShelf. by destruct (JS.ltb _ _). }
    rewrite Hmax, Hsh'.
    pose proof (Math_max_l (PackState.maxUsedWidthMm st)
                  (Shelf.usedWidthMm shelf + PrintObject.widthMm rect)) as Hml.
    pose proof (Math_max_r (PackState.maxUsedWidthMm st)
                  (Shelf.usedWidthMm shelf + PrintObject.widthMm rect)) as Hmr.
    split; [lra|].
    rewrite <- (take_drop_middle _ _ _ Hs) in Hall.
    apply Forall_app in Hall as [H1 H2]. apply Forall_cons in H2 as [_ H2].
    apply Forall_app. split; [|constructor].
    + eapply Forall_impl; [exact H1|]. simpl. intros; lra.
    + rewrite Hu. lra.
    + eapply (usedOk_shifted d _ _ (fun u => u <= _)); [exact Hsh|].
      eapply Forall_impl; [exact H2|]. simpl. intros; lra.
Qed.

Lemma packLoop_widest (rectangles : list PrintObject.t) :
  forall st st',
    widestOk st -> packLoop maxWidthMm st rectangles = Some st' -> widestOk st'.
Proof.
  induction rectangles as [|rect rest IH]; intros st st' Hok; simpl.
  - by intros [= <-].
  - destruct (packRect maxWidthMm st rect) as [st1|] eqn:Hstep; [|discriminate].
    apply IH. by eapply widestOk_step.
Qed.

End UsedWidth.

(** X4: the used width a successful packing reports is at most the width
    bound, and no rectangle ends more than [EPSILON] to the right of it
    (unique ids, non-negative widths). *)
Theorem packWithinWidth_usedWidth (rectangles : list PrintObject.t) (maxWidthMm : Q)
    (packing : Packing.t) :
  NoDup (PrintObject.id <$> rectangles) ->
  Forall (fun r => 0 <= PrintObject.widthMm r) rectangles ->
  packWithinWidth rectangles maxWidthMm = Some packing ->
  Packing.usedWidthMm packing <= maxWidthMm /\
  forall r,
    r ∈ rectangles ->
    exists p,
      Packing.placements packing !! PrintObject.id r = Some p /\
      PackingPlacement.xMm p + PrintObject.widthMm r
      <= Packing.usedWidthMm packing + EPSILON.
Proof.
  intros Hnd Hpos. unfold packWithinWidth.
  destruct (packLoop maxWidthMm PackState.init rectangles) as [st|] eqn:Hloop;
    [|discriminate].
  intros [= <-]. simpl. split; [js_cases; lra|].
  intros r Hr. apply list_elem_of_lookup in Hr as [k Hk].
  assert (Hu0 : usedOk maxWidthMm PackState.init) by constructor.
  assert (Hp0 : placedOk PackState.init [] []).
  { split; [done | intros ? ? ? H; by rewrite lookup_nil in H
                 | intros ? ? ? ? ? ? ? _ H; by rewrite lookup_nil in H]. }
  destruct (packLoop_placed maxWidthMm rectangles PackState.init st [] []
              Hpos Hnd Hu0 Hp0 Hloop) as [Hused [Hlen Hon _]].
  assert (Hw0 : widestOk PackState.init) by (split; simpl; [lra | constructor]).
  destruct (packLoop_widest maxWidthMm rectangles _ _ Hw0 Hloop) as [_ Hwide].
  simpl in *.
  destruct (shelfTrace maxWidthMm PackState.init rectangles !! k) as [s|] eqn:Hs;
    [|apply lookup_ge_None in Hs; apply lookup_lt_Some in Hk; lia].
  destruct (Hon k r s Hk Hs) as (p & sh & Hp & Hsh & _ & Hx).
  exists p. split; [exact Hp|].
  unfold usedOk in Hused. eapply Forall_lookup_1 in Hused; [|exact Hsh].
  eapply Forall_lookup_1 in Hwide; [|exact Hsh]. simpl in Hused, Hwide.
  pose proof EPSILON_pos. js_cases; lra.
Qed.

Lemma packWithinWidth_usedWidth_witness :
  exists packing,
    packWithinWidth scenarioA 210 = Some packing /\
    Packing.usedWidthMm packing <= 210.
Proof.
  assert (Hnd : NoDup (PrintObject.id <$> scenarioA))
    by (repeat constructor; set_solver).
  assert (Hpos : Forall (fun r => 0 <= PrintObject.widthMm r) scenarioA)
    by (repeat constructor; discriminate).
  destruct (packWithinWidth scenarioA 210) as [packing|] eqn:Hp; [|discriminate].
  exists packing. split; [reflexivity|].
  exact (proj1 (packWithinWidth_usedWidth scenarioA 210 packing Hnd Hpos Hp)).
Defined.

(** ** The optimiser: the order it packs in *)

Lemma compareObjects_le (a b : PrintObject.t) :
  compareObjects a b <= 0 <-> packsBefore a b.
Proof.
  unfold compareObjects, packsBefore, sortKey, JS.or_else, JS.eqb.
  set (ka := JS.Math_max (PrintObject.widthMm a) _).
  set (kb := JS.Math_max (PrintObject.widthMm b) _).
  set (ha := PrintObject.heightMm a). set (hb := PrintObject.heightMm b).
  set (wa := PrintObject.widthMm a). set (wb := PrintObject.widthMm b).
  clearbody ka kb ha hb wa wb.
  destruct (Qeq_bool kb ka) eqn:Hk; simpl.
  - apply Qeq_bool_iff in Hk.
    destruct (Qeq_bool (hb - ha) 0) eqn:Hh.
    + apply Qeq_bool_iff in Hh. split.
      * intros H. right. split; [exact Hk|]. right. split; lra.
      * intros [H|[_ [H|[_ H]]]]; lra.
    + apply Qeq_bool_neq in Hh. split.
      * intros H. right. split; [exact Hk|]. left.
        destruct (Qlt_le_dec hb ha) as [Hlt|Hge]; [exact Hlt|].
        exfalso. apply Hh. lra.
      * intros [H|[_ [H|[H _]]]]; [lra | lra |]. exfalso. apply Hh. lra.
  - apply Qeq_bool_neq in Hk. split.
    + intros H. left. destruct (Qlt_le_dec kb ka) as [Hlt|Hge]; [exact Hlt|].
      exfalso. apply Hk. lra.
    + intros [H|[H _]]; [lra | contradiction].
Qed.

Lemma packsBefore_total (a b : PrintObject.t) : packsBefore a b \/ packsBefore b a.
Proof.
  unfold packsBefore.
  destruct (Q_dec (sortKey a) (sortKey b)) as [[H|H]|H]; [right; by left | left; by left|].
  destruct (Q_dec (PrintObject.heightMm a) (PrintObject.heightMm b)) as [[H1|H1]|H1].
  - right. right. split; [lra|]. by left.
  - left. right. split; [lra|]. by left.
  - destruct (Qlt_le_dec (PrintObject.widthMm a) (PrintObject.widthMm b)).
    + right. right. split; [lra|]. right. split; lra.
    + left. right. split; [lra|]. right. split; lra.
Qed.

Lemma packsBefore_trans (a b c : PrintObject.t) :
  packsBefore a b -> packsBefore b c -> packsBefore a c.
Proof.
  unfold packsBefore.
  intros [H1|(H1 & [H2|[H2 H3]])] [H4|(H4 & [H5|[H5 H6]])];
    try (left; lra); right; (split; [lra|]); try (left; lra); right; split; lra.
Qed.

Lemma insertSorted_sorted (x : PrintObject.t) (l : list PrintObject.t) :
  StronglySorted packsBefore l ->
  StronglySorted packsBefore (insertSorted compareObjects x l).
Proof.
  induction 1 as [|y l Hl IH Hy]; simpl; [repeat constructor|].
  destruct (JS.ltb 0 (compareObjects x y)) eqn:Hc.
  - apply ltb_true in Hc. constructor; [exact IH|].
    assert (Hyx : packsBefore y x).
    { destruct (packsBefore_total y x) as [H|H]; [done|].
      apply compareObjects_le in H. lra. }
    apply Forall_forall. intros z Hz.
    rewrite insertSorted_Permutation in Hz.
    apply elem_of_cons in Hz as [->|Hz]; [done|].
    eapply Forall_forall in Hy; [exact Hy | exact Hz].
  - apply ltb_false in Hc. apply compareObjects_le in Hc.
    constructor; [by constructor|]. constructor; [exact Hc|].
    eapply Forall_impl; [exact Hy|]. intros z Hz. by eapply packsBefore_trans.
Qed.

(** X5: the optimiser packs a rearrangement of its input in which every
    object comes before the objects with a smaller larger side, within equal
    larger sides before the lower ones, and within equal heights before the
    narrower ones. *)
Theorem sortBy_compareObjects_sorted (objects : list PrintObject.t) :
  StronglySorted packsBefore (sortBy compareObjects objects) /\
  sortBy compareObjects objects ≡ₚ objects.
Proof.
  split; [|apply sortBy_Permutation].
  induction objects as [|x l IH]; [constructor|].
  change (sortBy compareObjects (x :: l))
    with (insertSorted compareObjects x (sortBy compareObjects l)).
  by apply insertSorted_sorted.
Qed.

(** ** The optimiser: the layout it returns *)






(** ** The optimiser: the number of sheets *)

Section FewestSheets.
Variables sheetWidthMm sheetHeightMm totalArea : Q.
Hypothesis sheet_area : 1 # 2 < sheetWidthMm * sheetHeightMm.

(** The waste of a layout is its number of sheets times the area of a
    sheet, minus the area of the rectangles. *)
Local Abbreviation wasteBySheets b :=
  (PackingResult.wasteArea b
   == inject_Z (sheetCount b) * (sheetWidthMm * sheetHeightMm) - totalArea).

Lemma candidateOf_waste (c : Z) (packing : Packing.t) :
  wasteBySheets (candidateOf sheetWidthMm sheetHeightMm totalArea c packing).
Proof. unfold sheetCount. simpl. rewrite inject_Z_mult. ring. Qed.

(** On sheets of more than half a square millimetre, wastes that differ by
    less than 0.5 belong to equal numbers of sheets. *)
Lemma sheets_sign (n : Z) :
  (inject_Z n * (sheetWidthMm * sheetHeightMm) < - (1 # 2) -> (n < 0)%Z) /\
  (- (1 # 2) <= inject_Z n * (sheetWidthMm * sheetHeightMm) -> (0 <= n)%Z) /\
  (inject_Z n * (sheetWidthMm * sheetHeightMm) < 1 # 2 -> (n <= 0)%Z).
Proof.
  set (S := sheetWidthMm * sheetHeightMm) in *.
  split; [|split]; intros H.
  - destruct (Z_lt_le_dec n 0) as [Hn|Hn]; [exact Hn|]. exfalso.
    assert (Hq : inject_Z 0 <= inject_Z n) by (by rewrite <- Zle_Qle).
    change (inject_Z 0) with 0 in Hq. nra.
  - destruct (Z_lt_le_dec n 0) as [Hn|Hn]; [|exact Hn]. exfalso.
    assert (Hq : inject_Z n <= inject_Z (-1)) by (rewrite <- Zle_Qle; lia).
    change (inject_Z (-1)) with (-1) in Hq. nra.
  - destruct (Z_lt_le_dec 0 n) as [Hn|Hn]; [|exact Hn]. exfalso.
    assert (Hq : inject_Z 1 <= inject_Z n) by (rewrite <- Zle_Qle; lia).
    change (inject_Z 1) with 1 in Hq. nra.
Qed.

Lemma replaces_sheets (c : Z) (packing : Packing.t) (b : PackingResult.t) :
  wasteBySheets b ->
  if replaces c
       (PackingResult.rows (candidateOf sheetWidthMm sheetHeightMm totalArea c packing))
       (PackingResult.wasteArea (candidateOf sheetWidthMm sheetHeightMm totalArea c packing))
       (Packing.totalHeightMm packing) b
  then (sheetCount (candidateOf sheetWidthMm sheetHeightMm totalArea c packing)
        <= sheetCount b)%Z
  else (sheetCount b
        <= sheetCount (candidateOf sheetWidthMm sheetHeightMm totalArea c packing))%Z.
Proof.
  intros Hb. pose proof (candidateOf_waste c packing) as Hc.
  set (cand := candidateOf sheetWidthMm sheetHeightMm totalArea c packing) in *.
  assert (Hdiff : PackingResult.wasteArea cand - PackingResult.wasteArea b
                  == inject_Z (sheetCount cand - sheetCount b)
                     * (sheetWidthMm * sheetHeightMm)).
  { rewrite Hb, Hc. unfold Z.sub. rewrite inject_Z_plus, inject_Z_opp. ring. }
  destruct (sheets_sign (sheetCount cand - sheetCount b)) as (Hlt & Hge & Hle).
  unfold replaces.
  destruct (JS.ltb (PackingResult.wasteArea cand) _) eqn:H1;
    [apply ltb_true in H1 | apply ltb_false in H1]; cbn [orb].
  - assert (sheetCount cand - sheetCount b < 0)%Z by (apply Hlt; lra). lia.
  - assert (0 <= sheetCount cand - sheetCount b)%Z by (apply Hge; lra).
    match goal with
    | |- context [JS.ltb (JS.Math_abs ?x) ?y] =>
        destruct (JS.ltb (JS.Math_abs x) y) eqn:H2; [|cbn [andb]; lia]
    end.
    apply ltb_true in H2. unfold JS.Math_abs in H2.
    apply Qabs_Qlt_condition in H2 as [_ H2].
    assert (sheetCount cand - sheetCount b <= 0)%Z by (apply Hle; lra).
    cbn [andb]. destruct (_ || _); lia.
Qed.

Variable sorted : list PrintObject.t.

Local Abbreviation step := (tryColumns sorted sheetWidthMm sheetHeightMm totalArea).

(** The loop ends with a layout that has no more sheets than the one it
    started with or any candidate it met. *)
Lemma columnLoop_fewest (cols : list Z) :
  forall best b,
    (forall b0, best = Some b0 -> wasteBySheets b0) ->
    fold_left step cols best = Some b ->
    (forall b0, best = Some b0 -> (sheetCount b <= sheetCount b0)%Z) /\
    forall c packing,
      c ∈ cols ->
      packWithinWidth sorted (inject_Z c * sheetWidthMm) = Some packing ->
      (sheetCount b
       <= sheetCount (candidateOf sheetWidthMm sheetHeightMm totalArea c packing))%Z.
Proof.
  induction cols as [|c cols IH]; intros best b Hbest; simpl.
  - intros ->. split; [by intros b0 [= <-]|]. intros c p Hc. by apply not_elem_of_nil in Hc.
  - intros Hfold.
    destruct (packWithinWidth sorted (inject_Z c * sheetWidthMm)) as [packing|] eqn:Hp.
    + set (cand := candidateOf sheetWidthMm sheetHeightMm totalArea c packing).
      assert (Hnext : exists b1,
                step best c = Some b1 /\ wasteBySheets b1 /\
                (sheetCount b1 <= sheetCount cand)%Z /\
                forall b0, best = Some b0 -> (sheetCount b1 <= sheetCount b0)%Z).
      { unfold tryColumns. rewrite Hp. fold cand. destruct best as [b0|].
        - pose proof (replaces_sheets c packing b0 (Hbest b0 eq_refl)) as Hr.
          fold cand in Hr. destruct (replaces _ _ _ _ b0).
          + exists cand. split; [done|]. split; [apply candidateOf_waste|].
            split; [lia|]. by intros ? [= <-].
          + exists b0. split; [done|]. split; [by apply Hbest|].
            split; [exact Hr|]. intros ? [= <-]. lia.
        - exists cand. split; [done|]. split; [apply candidateOf_waste|].
          split; [lia | discriminate]. }
      destruct Hnext as (b1 & Hb1 & Hw1 & Hc1 & H01). rewrite Hb1 in Hfold.
      destruct (IH (Some b1) b) as [Hle Hall]; [by intros ? [= <-] | exact Hfold|].
      specialize (Hle b1 eq_refl). split.
      * intros b0 Hb0. specialize (H01 b0 Hb0). lia.
      * intros c' p' Hc' Hp'. apply elem_of_cons in Hc' as [->|Hc']; [|by eapply Hall].
        rewrite Hp in Hp'. injection Hp' as <-. fold cand. lia.
    + assert (Hsame : step best c = best) by (unfold tryColumns; by rewrite Hp).
      rewrite Hsame in Hfold. destruct (IH best b Hbest Hfold) as [Hle Hall].
      split; [exact Hle|]. intros c' p' Hc' Hp'.
      apply elem_of_cons in Hc' as [->|Hc']; [congruence | by eapply Hall].
Qed.

End FewestSheets.

(** X7: on sheets of positive width and more than half a square millimetre,
    the returned layout has no more sheets ([columns * rows]) than the
    candidate of any other column count of the search range. *)
Theorem optimise_fewest_sheets (objects : list PrintObject.t)
    (sheetWidthMm sheetHeightMm : Q) (result : PackingResult.t) :
  0 < sheetWidthMm ->
  1 # 2 < sheetWidthMm * sheetHeightMm ->
  optimisePackingLayout objects sheetWidthMm sheetHeightMm = Some result ->
  forall c packing,
    (minimumColumnsOf (sortBy compareObjects objects) sheetWidthMm <= c
     <= maximumColumnsOf (minimumColumnsOf (sortBy compareObjects objects) sheetWidthMm))%Z ->
    packWithinWidth (sortBy compareObjects objects) (inject_Z c * sheetWidthMm)
      = Some packing ->
    (PackingResult.columns result * PackingResult.rows result
     <= c * Z.max 1 (JS.Math_ceil (Packing.totalHeightMm packing / sheetHeightMm)))%Z.
Proof.
  intros _ Harea Hres c packing Hc Hp.
  unfold optimisePackingLayout in Hres. destruct objects as [|o objects]; [discriminate|].
  set (sorted := sortBy compareObjects (o :: objects)) in *.
  destruct (columnLoop_fewest sheetWidthMm sheetHeightMm (totalAreaOf sorted) Harea sorted
              _ None result ltac:(discriminate) Hres) as [_ Hall].
  apply (Hall c packing); [|exact Hp]. apply elem_of_seqZ. lia.
Qed.

Lemma optimise_fewest_sheets_witness :
  exists result packing,
    optimisePackingLayout scenarioA 210 297 = Some result /\
    packWithinWidth (sortBy compareObjects scenarioA) (inject_Z 2 * 210) = Some packing /\
    (PackingResult.columns result * PackingResult.rows result
     <= 2 * Z.max 1 (JS.Math_ceil (Packing.totalHeightMm packing / 297)))%Z.
Proof.
  assert (Hres : exists result, optimisePackingLayout scenarioA 210 297 = Some result)
    by (eexists; vm_compute; reflexivity).
  assert (Hp : exists packing,
             packWithinWidth (sortBy compareObjects scenarioA) (inject_Z 2 * 210)
             = Some packing) by (eexists; vm_compute; reflexivity).
  destruct Hres as [result Hres]. destruct Hp as [packing Hp].
  exists result, packing. split; [exact Hres|]. split; [exact Hp|].
  apply (optimise_fewest_sheets scenarioA 210 297 result eq_refl eq_refl Hres 2%Z packing);
    [|exact Hp].
  vm_compute. split; discriminate.
Defined.

(** ** The export: what is drawn on a page *)

Lemma objectCommand_onSheet (textures : gmap string Texture.t) (sheet : SheetDimensions.t)
    (originX originY : Q) (object : PrintObject.t) (cmd : DrawCommand) :
  objectCommand textures sheet originX originY object = Some cmd -> onSheet sheet cmd.
Proof.
  unfold objectCommand.
  destruct (skipped _) eqn:Hskip; [discriminate|].
  unfold skipped in Hskip. rewrite orb_false_iff, !leb_false in Hskip.
  destruct Hskip as [Hw Hh]. revert Hw Hh.
  unfold Intersection.interWidth, Intersection.interHeight, intersect. simpl.
  intros Hw Hh Hcmd.
  assert (Hdest : destination cmd
                  = (JS.Math_max (PrintObject.xMm object) originX - originX,
                     JS.Math_max (PrintObject.yMm object) originY - originY,
                     JS.Math_min (PrintObject.xMm object + PrintObject.widthMm object)
                                 (originX + SheetDimensions.widthMm sheet)
                     - JS.Math_max (PrintObject.xMm object) originX,
                     JS.Math_min (PrintObject.yMm object + PrintObject.heightMm object)
                                 (originY + SheetDimensions.heightMm sheet)
                     - JS.Math_max (PrintObject.yMm object) originY)).
  { destruct (textures !! PrintObject.id object); by injection Hcmd as <-. }
  unfold onSheet. rewrite Hdest. revert Hw Hh. js_cases; intros; repeat split; lra.
Qed.

Lemma tile_page_elem (textures : gmap string Texture.t) (objects : list PrintObject.t)
    (sheet : SheetDimensions.t) (columns rows : Z) (page : list DrawCommand) :
  page ∈ tile textures objects sheet columns rows ->
  page <> [] /\
  exists rowIndex columnIndex,
    (rowIndex, columnIndex) ∈ gridCells columns rows /\
    page = cellCommands textures objects sheet rowIndex columnIndex.
Proof.
  rewrite tile_filter, list_elem_of_In, filter_In, in_map_iff.
  intros [([r c] & <- & Hcell) Hne]. split.
  - intros Hnil. by rewrite Hnil in Hne.
  - exists r, c. split; [by apply list_elem_of_In | reflexivity].
Qed.

(** X9: every command of every page of the tiling draws inside the sheet:
    its destination rectangle starts at or after 0, ends at or before the
    sheet width and height, and is more than [EPSILON] wide and high. *)
Theorem tile_on_sheet (textures : gmap string Texture.t) (objects : list PrintObject.t)
    (sheet : SheetDimensions.t) (columns rows : Z) :
  Forall (Forall (onSheet sheet)) (tile textures objects sheet columns rows).
Proof.
  apply Forall_forall. intros page Hpage.
  apply tile_page_elem in Hpage as (_ & r & c & _ & ->).
  apply Forall_forall. intros cmd Hcmd. unfold cellCommands in Hcmd.
  apply list_elem_of_omap in Hcmd as (object & _ & Hc).
  by eapply objectCommand_onSheet.
Qed.

Lemma gridCells_length (columns rows : Z) :
  length (gridCells columns rows) = (Z.to_nat rows * Z.to_nat columns)%nat.
Proof.
  unfold gridCells. rewrite <- (length_seqZ 0 rows), <- (length_seqZ 0 columns).
  induction (seqZ 0 rows) as [|r l IH]; simpl; [done|].
  by rewrite length_app, length_map, IH.
Qed.

Lemma cellCommands_length (textures : gmap string Texture.t) (objects : list PrintObject.t)
    (sheet : SheetDimensions.t) (rowIndex columnIndex : Z) :
  (length (cellCommands textures objects sheet rowIndex columnIndex) <= length objects)%nat.
Proof.
  unfold cellCommands.
  set (f := objectCommand textures sheet _ _).
  induction objects as [|o l IH]; [done|].
  change (omap f (o :: l))
    with (match f o with Some y => y :: omap f l | None => omap f l end).
  destruct (f o); simpl length; lia.
Qed.

(** X10: the tiling has at most [rows * columns] pages (none for a grid
    without rows or columns), and a page has at least one command and at most
    one per object. *)
Theorem tile_size (textures : gmap string Texture.t) (objects : list PrintObject.t)
    (sheet : SheetDimensions.t) (columns rows : Z) :
  (length (tile textures objects sheet columns rows)
   <= Z.to_nat rows * Z.to_nat columns)%nat /\
  Forall (fun page => (1 <= length page <= length objects)%nat)
         (tile textures objects sheet columns rows).
Proof.
  split.
  - rewrite tile_filter, <- gridCells_length,
      <- (length_map (commandsAt textures objects sheet)).
    apply filter_length_le.
  - apply Forall_forall. intros page Hpage.
    apply tile_page_elem in Hpage as (Hne & r & c & _ & ->).
    split; [|apply cellCommands_length].
    destruct (cellCommands _ _ _ _ _); [done | simpl; lia].
Qed.

(** ** The export: textures and outcomes *)

Lemma src_empty (src : string) : String.eqb src "" = false <-> src <> EmptyString.
Proof. rewrite <- not_true_iff_false, String.eqb_eq. tauto. Qed.

(** Loading fails exactly when the image of some loaded source fails. *)
Lemma loadTextures_None (loadImage : string -> option (Z * Z))
    (objects : list PrintObject.t) :
  forall textures,
    loadTextures loadImage objects textures = None <->
    exists object src,
      object ∈ objects /\ hasSource object src /\ loadImage src = None.
Proof.
  induction objects as [|o l IH]; intros textures; simpl.
  - split; [discriminate|]. intros (? & ? & H & _). by apply not_elem_of_nil in H.
  - assert (Hskip : (forall src, ~ hasSource o src) ->
              ((exists object src, object ∈ l /\ hasSource object src /\ loadImage src = None)
               <-> exists object src,
                     object ∈ o :: l /\ hasSource object src /\ loadImage src = None)).
    { intros Hno. split.
      - intros (x & src & Hx & H). exists x, src. split; [by apply elem_of_cons; right | done].
      - intros (x & src & Hx & Hs & H). apply elem_of_cons in Hx as [->|Hx];
          [by destruct (Hno src) | by exists x, src]. }
    destruct (PrintObject.textureSrc o) as [src|] eqn:Hsrc.
    + destruct (String.eqb src "") eqn:Hempty.
      * rewrite IH. apply Hskip. intros src' [Hs Hne].
        rewrite Hsrc in Hs. injection Hs as <-.
        apply String.eqb_eq in Hempty. contradiction.
      * apply src_empty in Hempty. destruct (loadImage src) as [[w h]|] eqn:Hload.
        -- rewrite IH. split.
           ++ intros (x & src' & Hx & H). exists x, src'.
              split; [by apply elem_of_cons; right | done].
           ++ intros (x & src' & Hx & Hs & H). apply elem_of_cons in Hx as [->|Hx];
                [|by exists x, src'].
              destruct Hs as [Hs _]. rewrite Hsrc in Hs. injection Hs as <-. congruence.
        -- split; [|done]. intros _. exists o, src.
           split; [apply elem_of_cons; by left | done].
    + rewrite IH. apply Hskip. intros src' [Hs _]. congruence.
Qed.

(** An id none of whose objects has a loaded source keeps the entry it had
    before loading. *)
Lemma loadTextures_other (loadImage : string -> option (Z * Z))
    (objects : list PrintObject.t) (id : string) :
  forall textures loaded,
    loadTextures loadImage objects textures = Some loaded ->
    (forall object src, object ∈ objects -> PrintObject.id object = id ->
                        ~ hasSource object src) ->
    loaded !! id = textures !! id.
Proof.
  induction objects as [|o l IH]; intros textures loaded; simpl.
  - by intros [= <-].
  - intros Hload Hno.
    assert (Hl : forall object src, object ∈ l -> PrintObject.id object = id ->
                   ~ hasSource object src)
      by (intros x src Hx; apply Hno, elem_of_cons; by right).
    destruct (PrintObject.textureSrc o) as [src|] eqn:Hsrc; [|by apply IH].
    destruct (String.eqb src "") eqn:Hempty; [by apply IH|].
    apply src_empty in Hempty.
    destruct (loadImage src) as [[w h]|]; [|discriminate].
    rewrite (IH _ _ Hload Hl). apply lookup_insert_ne. intros Hid.
    apply (Hno o src); [apply elem_of_cons; by left | exact Hid | done].
Qed.

Lemma loadTextures_entry (loadImage : string -> option (Z * Z))
    (objects : list PrintObject.t) :
  forall textures loaded object src,
    NoDup (PrintObject.id <$> objects) ->
    loadTextures loadImage objects textures = Some loaded ->
    object ∈ objects -> hasSource object src ->
    exists w h,
      loadImage src = Some (w, h) /\
      loaded !! PrintObject.id object = Some (Texture.mk src w h).
Proof.
  induction objects as [|o l IH]; intros textures loaded object src Hnd; simpl.
  - intros _ H. by apply not_elem_of_nil in H.
  - rewrite fmap_cons in Hnd. apply NoDup_cons in Hnd as [Hfresh Hnd].
    intros Hload Hin [Hs Hne]. apply elem_of_cons in Hin as [->|Hin].
    + rewrite Hs in Hload. apply src_empty in Hne. rewrite Hne in Hload.
      destruct (loadImage src) as [[w h]|]; [|discriminate].
      exists w, h. split; [done|].
      rewrite (loadTextures_other _ _ (PrintObject.id o) _ _ Hload).
      * apply lookup_insert_eq.
      * intros x src' Hx Hid _. apply Hfresh. rewrite <- Hid.
        by apply list_elem_of_fmap_2.
    + assert (Hgo : forall t, loadTextures loadImage l t = Some loaded ->
                exists w h, loadImage src = Some (w, h) /\
                            loaded !! PrintObject.id object = Some (Texture.mk src w h))
        by (intros t Ht; by eapply (IH t)).
      destruct (PrintObject.textureSrc o) as [src0|]; [|by eapply Hgo].
      destruct (String.eqb src0 ""); [by eapply Hgo|].
      destruct (loadImage src0) as [[w0 h0]|]; [by eapply Hgo | discriminate].
Qed.

(** X11: when [exportLayoutToPdf] saves a document, there were objects and
    a canvas context, every texture loaded, the document is the tiling, it
    has at least one page and no page of it is blank. *)
Theorem exportLayoutToPdf_saves_tiling (loadImage : string -> option (Z * Z))
    (scratchContext : bool) (objects : list PrintObject.t) (sheet : SheetDimensions.t)
    (columns rows : Z) (pages : list (list DrawCommand)) :
  exportLayoutToPdf loadImage scratchContext objects sheet columns rows = Saved pages ->
  objects <> [] /\ scratchContext = true /\ pages <> [] /\
  Forall (fun page => page <> []) pages /\
  exists textures,
    loadTextures loadImage objects ∅ = Some textures /\
    pages = tile textures objects sheet columns rows.
Proof.
  unfold exportLayoutToPdf. destruct objects as [|o l]; [discriminate|].
  destruct (loadTextures loadImage (o :: l) ∅) as [textures|]; [|discriminate].
  destruct scratchContext; [|discriminate]. simpl.
  destruct (tile textures (o :: l) sheet columns rows) as [|page rest] eqn:Ht;
    [discriminate|].
  intros [= <-]. split; [done|]. split; [done|]. split; [done|].
  split; [|by exists textures].
  rewrite <- Ht. apply Forall_forall. intros p Hp. by apply tile_page_elem in Hp as [? _].
Qed.

Lemma exportLayoutToPdf_saves_tiling_witness :
  exists pages,
    exportLayoutToPdf (fun _ => None) true [placed "a" 0 0 100 100]
                      (SheetDimensions.mk 210 297) 1 1 = Saved pages /\
    Forall (fun page => page <> []) pages.
Proof.
  eexists. split; [vm_compute; reflexivity|].
  refine (proj1 (proj2 (proj2 (proj2
            (exportLayoutToPdf_saves_tiling (fun _ => None) true [placed "a" 0 0 100 100]
               (SheetDimensions.mk 210 297) 1 1 _ _))))).
  vm_compute. reflexivity.
Defined.

(** X12: the export ends with the texture alert exactly when the image of
    some object's source fails to load, whatever the grid, the positions and
    the canvas: one failure abandons the whole export. *)
Theorem exportLayoutToPdf_texture_error (loadImage : string -> option (Z * Z))
    (scratchContext : bool) (objects : list PrintObject.t) (sheet : SheetDimensions.t)
    (columns rows : Z) :
  exportLayoutToPdf loadImage scratchContext objects sheet columns rows = AlertTextureError
  <-> exists object src,
        object ∈ objects /\ hasSource object src /\ loadImage src = None.
Proof.
  rewrite <- (loadTextures_None loadImage objects ∅).
  unfold exportLayoutToPdf. destruct objects as [|o l]; [by split|].
  destruct (loadTextures loadImage (o :: l) ∅) as [textures|]; [|by split].
  split; [|discriminate].
  destruct scratchContext; simpl; [|discriminate].
  by destruct (tile textures (o :: l) sheet columns rows).
Qed.

(** X13: after a successful load (unique ids), an object with a source has
    the texture of that source, with the pixel size [loadImage] gave for it,
    and an object without one has no texture. *)
Theorem loadTextures_entries (loadImage : string -> option (Z * Z))
    (objects : list PrintObject.t) (textures : gmap string Texture.t) :
  NoDup (PrintObject.id <$> objects) ->
  loadTextures loadImage objects ∅ = Some textures ->
  forall object,
    object ∈ objects ->
    (forall src,
       hasSource object src ->
       exists w h,
         loadImage src = Some (w, h) /\
         textures !! PrintObject.id object = Some (Texture.mk src w h)) /\
    ((forall src, ~ hasSource object src) ->
     textures !! PrintObject.id object = None).
Proof.
  intros Hnd Hload object Hin. split.
  - intros src Hs. by eapply loadTextures_entry.
  - intros Hno. rewrite (loadTextures_other _ _ _ _ _ Hload); [apply lookup_empty|].
    intros x src Hx Hid Hs.
    assert (x = object) as ->; [|by apply (Hno src)].
    apply list_elem_of_lookup in Hx as [i Hi]. apply list_elem_of_lookup in Hin as [j Hj].
    assert (i = j) as ->; [|congruence].
    eapply NoDup_lookup; [exact Hnd | |]; rewrite list_lookup_fmap.
    + by rewrite Hi.
    + rewrite Hj. simpl. by rewrite Hid.
Qed.

Lemma loadTextures_entries_witness :
  exists textures,
    loadTextures (fun _ => Some (10, 20)%Z)
      [PrintObject.mk "a" "a" 100 50 0 0 "#fff" (Some "data:a") None None] ∅
    = Some textures /\
    textures !! "a" = Some (Texture.mk "data:a" 10 20).
Proof.
  eexists. split; [reflexivity|].
  assert (Hnd : NoDup (PrintObject.id <$>
                  [PrintObject.mk "a" "a" 100 50 0 0 "#fff" (Some "data:a") None None]))
    by (repeat constructor; set_solver).
  destruct (proj1 (loadTextures_entries (fun _ => Some (10, 20)%Z) _ _ Hnd eq_refl
                     (PrintObject.mk "a" "a" 100 50 0 0 "#fff" (Some "data:a") None None)
                     ltac:(set_solver))
                  "data:a" ltac:(split; [reflexivity | discriminate]))
    as (w & h & [= <- <-] & Ht).
  exact Ht.
Defined.

(** ** The export: an object inside one sheet *)

(** X14: on sheets of positive size, an object more than [EPSILON] wide and
    high that lies inside the cell [(r, c)] is drawn by that cell in full, at
    its offset from the origin of the cell, and by no other cell. *)
Theorem objectCommand_single_cell (textures : gmap string Texture.t)
    (sheet : SheetDimensions.t) (object : PrintObject.t) (r c : Z) :
  0 < SheetDimensions.widthMm sheet -> 0 < SheetDimensions.heightMm sheet ->
  EPSILON < PrintObject.widthMm object -> EPSILON < PrintObject.heightMm object ->
  inject_Z c * SheetDimensions.widthMm sheet <= PrintObject.xMm object ->
  PrintObject.xMm object + PrintObject.widthMm object
  <= inject_Z c * SheetDimensions.widthMm sheet + SheetDimensions.widthMm sheet ->
  inject_Z r * SheetDimensions.heightMm sheet <= PrintObject.yMm object ->
  PrintObject.yMm object + PrintObject.heightMm object
  <= inject_Z r * SheetDimensions.heightMm sheet + SheetDimensions.heightMm sheet ->
  (exists cmd,
     objectCommand textures sheet (inject_Z c * SheetDimensions.widthMm sheet)
                   (inject_Z r * SheetDimensions.heightMm sheet) object = Some cmd /\
     let '(x, y, w, h) := destination cmd in
     x == PrintObject.xMm object - inject_Z c * SheetDimensions.widthMm sheet /\
     y == PrintObject.yMm object - inject_Z r * SheetDimensions.heightMm sheet /\
     w == PrintObject.widthMm object /\ h == PrintObject.heightMm object) /\
  forall r' c',
    (r', c') <> (r, c) ->
    objectCommand textures sheet (inject_Z c' * SheetDimensions.widthMm sheet)
                  (inject_Z r' * SheetDimensions.heightMm sheet) object = None.
Proof.
  intros Hsw Hsh Hw Hh Hx0 Hx1 Hy0 Hy1. split.
  - unfold objectCommand.
    set (i := intersect object sheet _ _).
    assert (Hi : Intersection.interLeft i == PrintObject.xMm object /\
                 Intersection.interTop i == PrintObject.yMm object /\
                 Intersection.interWidth i == PrintObject.widthMm object /\
                 Intersection.interHeight i == PrintObject.heightMm object).
    { unfold i, Intersection.interWidth, Intersection.interHeight, intersect. simpl.
      js_cases; repeat split; lra. }
    destruct Hi as (Hl & Ht & Hiw & Hih).
    assert (Hskip : skipped i = false).
    { unfold skipped. rewrite orb_false_iff, !leb_false. lra. }
    rewrite Hskip. clearbody i.
    unfold Intersection.interWidth, Intersection.interHeight in *.
    destruct (textures !! PrintObject.id object); eexists; (split; [reflexivity|]);
      simpl; repeat split; lra.
  - intros r' c' Hne.
    assert (Hapart : forall (d : Q) (n n' : Z) (p s : Q),
              0 < d -> n' <> n ->
              inject_Z n * d <= p -> p + s <= inject_Z n * d + d ->
              JS.Math_min (p + s) (inject_Z n' * d + d) - JS.Math_max p (inject_Z n' * d)
              <= 0).
    { intros d n n' p s Hd Hn Hp0 Hp1.
      destruct (Z_lt_le_dec n' n) as [Hlt|Hge].
      - assert (Hq : inject_Z (n' + 1) <= inject_Z n) by (rewrite <- Zle_Qle; lia).
        rewrite inject_Z_plus in Hq. change (inject_Z 1) with 1 in Hq.
        assert (inject_Z n' * d + d <= inject_Z n * d) by nra. js_cases; lra.
      - assert (Hq : inject_Z (n + 1) <= inject_Z n') by (rewrite <- Zle_Qle; lia).
        rewrite inject_Z_plus in Hq. change (inject_Z 1) with 1 in Hq.
        assert (inject_Z n * d + d <= inject_Z n' * d) by nra. js_cases; lra. }
    unfold objectCommand.
    assert (Hskip : skipped (intersect object sheet
                               (inject_Z c' * SheetDimensions.widthMm sheet)
                               (inject_Z r' * SheetDimensions.heightMm sheet)) = true).
    { unfold skipped. rewrite orb_true_iff, !leb_true.
      unfold Intersection.interWidth, Intersection.interHeight, intersect. simpl.
      pose proof EPSILON_pos.
      destruct (decide (c' = c)) as [->|Hc].
      - right. assert (Hr : r' <> r) by congruence.
        pose proof (Hapart _ r r' _ _ Hsh Hr Hy0 Hy1). lra.
      - left. pose proof (Hapart _ c c' _ _ Hsw Hc Hx0 Hx1). lra. }
    by rewrite Hskip.
Qed.

Lemma objectCommand_single_cell_witness :
  objectCommand ∅ (SheetDimensions.mk 210 297) (inject_Z 0 * 210) (inject_Z 0 * 297)
                (placed "a" 220 10 100 50) = None.
Proof.
  apply (proj2 (objectCommand_single_cell ∅ (SheetDimensions.mk 210 297)
                  (placed "a" 220 10 100 50) 0 1
                  eq_refl eq_refl eq_refl eq_refl
                  ltac:(discriminate) ltac:(discriminate)
                  ltac:(discriminate) ltac:(discriminate)) 0%Z 0%Z).
  discriminate.
Defined.

(** ** App: clearing a texture, then exporting *)

(** X19: after [clearTexture id], a successful load holds no texture for
    [id], and every object with that id is drawn as a fill of its colour. *)
Theorem clearTexture_export (loadImage : string -> option (Z * Z)) (id : string)
    (objects : list PrintObject.t) (textures : gmap string Texture.t) :
  loadTextures loadImage (clearTexture id objects) ∅ = Some textures ->
  textures !! id = None /\
  forall object sheet originX originY cmd,
    object ∈ clearTexture id objects -> PrintObject.id object = id ->
    objectCommand textures sheet originX originY object = Some cmd ->
    exists x y w h, cmd = Fill (PrintObject.color object) x y w h.
Proof.
  intros Hload.
  assert (Hnone : textures !! id = None).
  { rewrite (loadTextures_other _ _ id _ _ Hload); [apply lookup_empty|].
    intros x src Hx Hid [Hs _]. unfold clearTexture in Hx.
    apply list_elem_of_fmap in Hx as (o & -> & _).
    destruct (String.eqb (PrintObject.id o) id) eqn:Ho; [discriminate|].
    apply String.eqb_neq in Ho. contradiction. }
  split; [exact Hnone|].
  intros object sheet originX originY cmd _ Hid. unfold objectCommand.
  destruct (skipped _); [discriminate|]. rewrite Hid, Hnone.
  intros [= <-]. by eexists _, _, _, _.
Qed.

Lemma clearTexture_export_witness :
  exists textures,
    loadTextures (fun _ => Some (10, 20)%Z)
      (clearTexture "a"
         [PrintObject.mk "a" "a" 100 50 0 0 "#fff" (Some "data:a") None None]) ∅
    = Some textures /\
    textures !! "a" = None.
Proof.
  eexists. split; [reflexivity|].
  exact (proj1 (clearTexture_export (fun _ => Some (10, 20)%Z) "a"
                  [PrintObject.mk "a" "a" 100 50 0 0 "#fff" (Some "data:a") None None]
                  _ eq_refl)).
Defined.

(** ** App: keeping the objects in the layout *)

(** Case analysis on nested [Math.max] and [Math.min], innermost
    comparison first. *)
Ltac js_nested :=
  unfold JS.Math_max, JS.Math_min in *;
  repeat match goal with
    | |- context [JS.leb ?a ?b] =>
        lazymatch a with context [JS.leb _ _] => fail | _ => idtac end;
        lazymatch b with context [JS.leb _ _] => fail | _ => idtac end;
        let E := fresh "E" in
        destruct (JS.leb a b) eqn:E; [apply leb_true in E | apply leb_false in E]
    end.

Lemma clamp_settled (layoutMm sizeMm posMm : Q) :
  settled layoutMm sizeMm
    (JS.Math_min (JS.Math_max posMm (JS.Math_min 0 (layoutMm - sizeMm)))
                 (JS.Math_max (layoutMm - sizeMm) 0)).
Proof. unfold settled. js_nested; split; intros; split; lra. Qed.

Lemma settled_clamp (layoutMm sizeMm posMm : Q) :
  settled layoutMm sizeMm posMm <->
  JS.Math_min (JS.Math_max posMm (JS.Math_min 0 (layoutMm - sizeMm)))
              (JS.Math_max (layoutMm - sizeMm) 0) == posMm.
Proof.
  split.
  - intros [Hfit Hbig].
    destruct (Qlt_le_dec layoutMm sizeMm) as [H|H].
    + destruct Hbig; [lra|]. js_nested; lra.
    + destruct Hfit; [lra|]. js_nested; lra.
  - intros H. unfold settled. revert H. js_nested; intros; split; intros; split; lra.
Qed.

Lemma settled_eq (layoutMm sizeMm p q : Q) :
  p == q -> settled layoutMm sizeMm p -> settled layoutMm sizeMm q.
Proof. unfold settled. intros Hpq [H1 H2]. split; intros H; [apply H1 in H | apply H2 in H]; lra. Qed.

(** The object the callback returns: moved to the clamped position when
    that differs, the object itself otherwise. *)
Lemma clampObject_fst (layout : SheetDimensions.t) (o : PrintObject.t) :
  (snd (clampObject layout o) = false -> fst (clampObject layout o) = o) /\
  PrintObject.id (fst (clampObject layout o)) = PrintObject.id o /\
  PrintObject.widthMm (fst (clampObject layout o)) = PrintObject.widthMm o /\
  PrintObject.heightMm (fst (clampObject layout o)) = PrintObject.heightMm o /\
  settled (SheetDimensions.widthMm layout) (PrintObject.widthMm o)
          (PrintObject.xMm (fst (clampObject layout o))) /\
  settled (SheetDimensions.heightMm layout) (PrintObject.heightMm o)
          (PrintObject.yMm (fst (clampObject layout o))).
Proof.
  unfold clampObject.
  pose proof (clamp_settled (SheetDimensions.widthMm layout) (PrintObject.widthMm o)
                (PrintObject.xMm o)) as Hx.
  pose proof (clamp_settled (SheetDimensions.heightMm layout) (PrintObject.heightMm o)
                (PrintObject.yMm o)) as Hy.
  set (nextX := JS.Math_min (JS.Math_max (PrintObject.xMm o) _) _) in *.
  set (nextY := JS.Math_min (JS.Math_max (PrintObject.yMm o) _) _) in *.
  destruct (negb (JS.eqb nextX _) || negb (JS.eqb nextY _)) eqn:Hchanged; simpl.
  - split; [discriminate|]. split; [reflexivity|]. split; [reflexivity|].
    split; [reflexivity|]. split; [exact Hx | exact Hy].
  - apply orb_false_iff in Hchanged as [H1 H2].
    apply negb_false_iff, Qeq_bool_iff in H1. apply negb_false_iff, Qeq_bool_iff in H2.
    split; [reflexivity|]. split; [reflexivity|]. split; [reflexivity|].
    split; [reflexivity|].
    split; [exact (settled_eq _ _ _ _ H1 Hx) | exact (settled_eq _ _ _ _ H2 Hy)].
Qed.

(** The update is the map of the callback's objects, also when it hands
    back [current]. *)
Lemma clampObjects_map (layout : SheetDimensions.t) (current : list PrintObject.t) :
  clampObjects layout current = map (fun o => fst (clampObject layout o)) current.
Proof.
  unfold clampObjects. rewrite map_map.
  destruct (existsb snd (map (clampObject layout) current)) eqn:Hany; [done|].
  induction current as [|o l IH]; [done|]. simpl in *.
  apply orb_false_iff in Hany as [Ho Hl].
  by rewrite (proj1 (clampObject_fst layout o) Ho), <- (IH Hl).
Qed.

Lemma clampObjects_all_settled (layout : SheetDimensions.t) (current : list PrintObject.t) :
  Forall (fun o =>
            settled (SheetDimensions.widthMm layout) (PrintObject.widthMm o)
                    (PrintObject.xMm o) /\
            settled (SheetDimensions.heightMm layout) (PrintObject.heightMm o)
                    (PrintObject.yMm o))
         (clampObjects layout current).
Proof.
  rewrite clampObjects_map. induction current as [|o l IH]; simpl.
  - constructor.
  - constructor; [|exact IH].
    destruct (clampObject_fst layout o) as (_ & _ & Hw & Hh & Hx & Hy).
    rewrite Hw, Hh. by split.
Qed.

(** X15: after the layout effect every object is inside the layout on each
    axis on which it fits, and covers the layout on each axis on which it is
    larger; ids and sizes are kept. *)
Theorem clampObjects_settled (layout : SheetDimensions.t) (current : list PrintObject.t) :
  PrintObject.id <$> clampObjects layout current = PrintObject.id <$> current /\
  PrintObject.widthMm <$> clampObjects layout current = PrintObject.widthMm <$> current /\
  PrintObject.heightMm <$> clampObjects layout current = PrintObject.heightMm <$> current /\
  Forall (fun o =>
            settled (SheetDimensions.widthMm layout) (PrintObject.widthMm o)
                    (PrintObject.xMm o) /\
            settled (SheetDimensions.heightMm layout) (PrintObject.heightMm o)
                    (PrintObject.yMm o))
         (clampObjects layout current).
Proof.
  rewrite clampObjects_map.
  assert (Hkeep : forall (A : Type) (g : PrintObject.t -> A),
            (forall o, g (fst (clampObject layout o)) = g o) ->
            g <$> map (fun o => fst (clampObject layout o)) current = g <$> current).
  { intros A g Hg. induction current as [|o l IH]; [done|].
    change (map (fun o => fst (clampObject layout o)) (o :: l))
      with (fst (clampObject layout o) :: map (fun o => fst (clampObject layout o)) l).
    by rewrite !fmap_cons, Hg, IH. }
  split; [apply Hkeep; intros o; apply clampObject_fst|].
  split; [apply Hkeep; intros o; apply clampObject_fst|].
  split; [apply Hkeep; intros o; apply clampObject_fst|].
  rewrite <- clampObjects_map. apply clampObjects_all_settled.
Qed.

(** X16: the layout effect changes nothing when run again, and it hands
    back the list unchanged exactly when every object already is inside the
    layout (or covers it) on both axes. *)
Theorem clampObjects_idempotent (layout : SheetDimensions.t) (current : list PrintObject.t) :
  clampObjects layout (clampObjects layout current) = clampObjects layout current /\
  (Forall (fun o =>
             settled (SheetDimensions.widthMm layout) (PrintObject.widthMm o)
                     (PrintObject.xMm o) /\
             settled (SheetDimensions.heightMm layout) (PrintObject.heightMm o)
                     (PrintObject.yMm o))
          current <->
   clampObjects layout current = current).
Proof.
  assert (Hfix : forall l,
            Forall (fun o =>
                      settled (SheetDimensions.widthMm layout) (PrintObject.widthMm o)
                              (PrintObject.xMm o) /\
                      settled (SheetDimensions.heightMm layout) (PrintObject.heightMm o)
                              (PrintObject.yMm o)) l ->
            clampObjects layout l = l).
  { intros l Hl. rewrite clampObjects_map.
    induction Hl as [|o l [Hx Hy] _ IH]; [done|]. simpl. rewrite IH. f_equal.
    apply clampObject_fst. unfold clampObject.
    apply settled_clamp in Hx. apply settled_clamp in Hy.
    apply Qeq_bool_iff in Hx. apply Qeq_bool_iff in Hy.
    unfold JS.eqb. by rewrite Hx, Hy. }
  split; [apply Hfix, clampObjects_all_settled|]. split; [apply Hfix|].
  intros Hsame. rewrite <- Hsame. apply clampObjects_all_settled.
Qed.

Lemma clampObjects_idempotent_witness :
  clampObjects (SheetDimensions.mk 210 297) [placed "a" 10 10 100 50]
  = [placed "a" 10 10 100 50].
Proof.
  apply (proj1 (proj2 (clampObjects_idempotent (SheetDimensions.mk 210 297)
                         [placed "a" 10 10 100 50]))).
  constructor; [|constructor].
  split; (split; simpl; intros H; [split; lra | exfalso; lra]).
Defined.

(** ** SheetCanvas and App: dragging an object *)

(** X17: a pointer move during a drag reports the id of the dragged object
    and a position that keeps an object of the dragged size inside the layout
    (covering it when it is larger), wherever the pointer is; after
    [updateObjectPosition] every object with that id is at that position and
    the other objects are untouched. *)
Theorem handlePointerMove_settled (drag : DragState.t) (sheetRect : Q * Q)
    (scale totalWidthMm totalHeightMm clientX clientY : Q) (current : list PrintObject.t) :
  0 < scale ->
  exists xMm yMm,
    handlePointerMove (Some drag) (Some sheetRect) scale totalWidthMm totalHeightMm
                      clientX clientY
    = Some (DragState.id drag, xMm, yMm) /\
    settled totalWidthMm (DragState.widthMm drag) xMm /\
    settled totalHeightMm (DragState.heightMm drag) yMm /\
    Forall2 (fun before after =>
               if String.eqb (PrintObject.id before) (DragState.id drag)
               then after = withPosition before xMm yMm
               else after = before)
            current (updateObjectPosition (DragState.id drag) xMm yMm current).
Proof.
  intros _. destruct sheetRect as [rectLeft rectTop]. simpl.
  eexists _, _. split; [reflexivity|].
  split; [apply clamp_settled|]. split; [apply clamp_settled|].
  unfold updateObjectPosition.
  induction current as [|o l IH]; simpl; constructor; [|exact IH].
  by destruct (String.eqb _ _).
Qed.

Lemma handlePointerMove_settled_witness :
  exists xMm yMm,
    handlePointerMove (Some (DragState.mk "a" 5 5 100 50)) (Some (0, 0)) 2 210 297 1000 (-40)
    = Some ("a", xMm, yMm) /\
    settled 210 100 xMm /\ settled 297 50 yMm.
Proof.
  destruct (handlePointerMove_settled (DragState.mk "a" 5 5 100 50) (0, 0) 2 210 297
              1000 (-40) [] eq_refl) as (x & y & H & Hx & Hy & _).
  exists x, y. split; [exact H|]. split; [exact Hx | exact Hy].
Defined.

(** ** App: running the optimiser *)







(** ** The optimiser: the packer does not refuse *)

(** X21: with widths in the range in which the rationals stand for the
    doubles (sheets at least [EPSILON] wide, rectangles at most 10^11 mm
    wide), the packer succeeds at every column count the optimiser tries,
    from [minimumColumns] to [maximumColumns], so the branch that skips a
    column count is not taken. *)
Theorem optimise_never_skips (objects : list PrintObject.t) (sheetWidthMm : Q) (c : Z) :
  0 < sheetWidthMm ->
  roundingSafe objects sheetWidthMm ->
  (minimumColumnsOf (sortBy compareObjects objects) sheetWidthMm <= c
   <= maximumColumnsOf (minimumColumnsOf (sortBy compareObjects objects) sheetWidthMm))%Z ->
  is_Some (packWithinWidth (sortBy compareObjects objects) (inject_Z c * sheetWidthMm)).
Proof.
  intros Hsw _ [Hc _].
  destruct (packWithinWidth _ _) as [p|] eqn:Hp; [by eexists|].
  apply packWithinWidth_None in Hp as (r & Hr & Hw).
  pose proof (minimumColumns_fits _ Hsw _ _ Hr) as Hfit.
  assert (Hcm : inject_Z (minimumColumnsOf (sortBy compareObjects objects) sheetWidthMm)
                <= inject_Z c) by (by rewrite <- Zle_Qle).
  pose proof EPSILON_pos. nra.
Qed.

Lemma optimise_never_skips_witness :
  is_Some (packWithinWidth (sortBy compareObjects scenarioA) (inject_Z 7 * 210)).
Proof.
  apply (optimise_never_skips scenarioA 210 7).
  - reflexivity.
  - split; [discriminate | repeat constructor; discriminate].
  - vm_compute. split; discriminate.
Defined.
